(** * My Memoir Stream: the entry store and the media uploader

    A shallow embedding of the two hooks of the journaling application,
    [useMediaUpload] (src/hooks/useMediaUpload.ts) and [useEntries]
    (the second document of src/components/AppSidebar.tsx), together with the
    part of the JavaScript runtime and of the hosted backend they rely on.

    - JavaScript strings are [string], holding the UTF-8 encoding of the
      text; numbers that hold integers are [Z], [undefined]/[null] are
      [None].
    - React state is passed explicitly: every operation takes the state of
      its hook and returns the new one.
    - The backend (relational tables, object storage) is a record [Remote];
      every call the client issues is appended to its log [calls], so that
      "no remote work" is a statement about that log.
    - What the code cannot decide (the clock, [Math.random], generated row
      identifiers, whether a call fails) is read from an environment [Env],
      indexed by the position [tick] of the call. The environment also holds
      what belongs to the engine and to the database rather than to the
      program: the local time zone, what [Date.parse] makes of a string
      outside the standard format, and how the database reads the text of a
      timestamp.
    - Toast notifications and console output carry no data used afterwards
      and are left out, as are the change subscription of [useEntries] and
      [getMediaUrl], which no property below needs. *)

From Stdlib Require Import ZArith Ascii String List Lia.
From Stdlib Require Import DecimalString DecimalPos DecimalZ.
From stdpp Require Import base option list gmap strings sorting.

Local Open Scope Z_scope.

(** ** JavaScript strings and values *)

Module Js.

(** [s.lastIndexOf(c)] for a one-character needle: the index of the last
    occurrence, [-1] when there is none. *)
Fixpoint lastIndexOf (c : ascii) (s : string) : Z :=
  match s with
  | EmptyString => -1
  | String a s' =>
      let r := lastIndexOf c s' in
      if 0 <=? r then r + 1
      else if Ascii.eqb a c then 0 else -1
  end.

Fixpoint drop (n : nat) (s : string) : string :=
  match n, s with
  | O, _ => s
  | S n', EmptyString => EmptyString
  | S n', String _ s' => drop n' s'
  end.

(** [s.substring(start)]: a negative [start] counts as [0], one past the end
    gives the empty string. *)
Definition substring (start : Z) (s : string) : string :=
  drop (Z.to_nat (Z.max 0 start)) s.

(** Number to string, for a number that holds an integer. *)
Definition Number_toString (n : Z) : string :=
  NilZero.string_of_int (Z.to_int n).

(** [xs.includes(x)] on an array of strings. *)
Definition includes (xs : list string) (x : string) : bool :=
  existsb (String.eqb x) xs.

(** Truthiness of an optional string: [undefined], [null] and the empty
    string are falsy. *)
Definition truthy (x : option string) : bool :=
  match x with
  | Some (String _ _) => true
  | _ => false
  end.

(** [x || d] where [x] is an optional string. *)
Definition or_else (x : option string) (d : option string) : option string :=
  if truthy x then x else d.

(** [x || d] where [d] is a string. *)
Definition or_string (x : option string) (d : string) : string :=
  match x with
  | Some (String a s) => String a s
  | _ => d
  end.

Definition is_space (a : ascii) : bool :=
  match a with
  | " "%char | "009"%char | "010"%char | "011"%char | "012"%char | "013"%char => true
  | _ => false
  end.

(** The white space and line terminators beyond ASCII, in UTF-8: U+00A0 on
    two bytes; U+1680, U+2000 to U+200A, U+2028, U+2029, U+202F, U+205F,
    U+3000 and U+FEFF on three. *)
Definition is_space2 (a b : ascii) : bool :=
  (N_of_ascii a =? 194)%N && (N_of_ascii b =? 160)%N.

Definition is_space3 (a b c : ascii) : bool :=
  let x := N_of_ascii a in
  let y := N_of_ascii b in
  let z := N_of_ascii c in
  ((x =? 225) && (y =? 154) && (z =? 128)
   || (x =? 226) && (y =? 128)
      && ((128 <=? z) && (z <=? 138) || (z =? 168) || (z =? 169) || (z =? 175))
   || (x =? 226) && (y =? 129) && (z =? 159)
   || (x =? 227) && (y =? 128) && (z =? 128)
   || (x =? 239) && (y =? 187) && (z =? 191))%N.

(** [s.trim()] is truthy exactly when [s] has a character that is not
    white space or a line terminator. *)
Fixpoint trim_nonempty (s : string) : bool :=
  match s with
  | EmptyString => false
  | String a s1 =>
      if is_space a then trim_nonempty s1
      else
        match s1 with
        | String b s2 =>
            if is_space2 a b then trim_nonempty s2
            else
              match s2 with
              | String c s3 => if is_space3 a b c then trim_nonempty s3 else true
              | EmptyString => true
              end
        | EmptyString => true
        end
  end.

(** The values of the [Json] type of the integration layer. *)
#[local] Unset Elimination Schemes.
Inductive Json : Type :=
| JNull
| JBool (b : bool)
| JNum (n : Z)
| JStr (s : string)
| JArr (xs : list Json)
| JObj (fields : list (string * Json)).
#[local] Set Elimination Schemes.

(** The part of a DOM [File] the application reads. *)
Record File := {
  name : string;
  size : Z;
  type : string
}.

End Js.

(** ** The JavaScript [Date] object

    A [Date] is its time value, the milliseconds since 1970-01-01T00:00:00Z,
    or invalid. The local time zone is the function [LocalTZA(t, isUTC)] of
    ECMAScript, the milliseconds to add to UTC, which may change with [t]. *)

Module Date.

Definition msPerDay : Z := 86400000.

(** Days since the epoch of a proleptic Gregorian date. *)
Definition days_from_civil (y m d : Z) : Z :=
  let y' := if m <=? 2 then y - 1 else y in
  let era := y' / 400 in
  let yoe := y' - era * 400 in
  let mp := if 2 <? m then m - 3 else m + 9 in
  let doy := (153 * mp + 2) / 5 + d - 1 in
  let doe := yoe * 365 + yoe / 4 - yoe / 100 + doy in
  era * 146097 + doe - 719468.

(** Year of era, month and day of the day [doe] of a 400-year era that
    starts on March 1st; the flag tells January and February, which belong
    to the next civil year. *)
Definition civil_of_doe (doe : Z) : Z * Z * Z * bool :=
  let yoe := (doe - doe / 1460 + doe / 36524 - doe / 146096) / 365 in
  let doy := doe - (365 * yoe + yoe / 4 - yoe / 100) in
  let mp := (5 * doy + 2) / 153 in
  let d := doy - (153 * mp + 2) / 5 + 1 in
  let m := if mp <? 10 then mp + 3 else mp - 9 in
  (yoe, m, d, m <=? 2).

Definition civil_from_days (z : Z) : Z * Z * Z :=
  let z' := z + 719468 in
  let era := z' / 146097 in
  let doe := z' - era * 146097 in
  let '(yoe, m, d, early) := civil_of_doe doe in
  let y := yoe + era * 400 in
  (if early then y + 1 else y, m, d).

Definition digit_char (d : Z) : ascii :=
  ascii_of_nat (48 + Z.to_nat d).

Definition digit_val (c : ascii) : option Z :=
  let n := Z.of_nat (nat_of_ascii c) in
  if (48 <=? n) && (n <=? 57) then Some (n - 48) else None.

Definition pad2 (n : Z) : list ascii :=
  [digit_char (n / 10); digit_char (n mod 10)].
Definition pad3 (n : Z) : list ascii :=
  [digit_char (n / 100); digit_char (n / 10 mod 10); digit_char (n mod 10)].
Definition pad4 (n : Z) : list ascii :=
  [digit_char (n / 1000); digit_char (n / 100 mod 10);
   digit_char (n / 10 mod 10); digit_char (n mod 10)].
Definition pad6 (n : Z) : list ascii :=
  pad2 (n / 10000) ++ pad4 (n mod 10000).

Definition num2 (a b : ascii) : option Z :=
  x ← digit_val a; y ← digit_val b; Some (10 * x + y).
Definition num3 (a b c : ascii) : option Z :=
  x ← digit_val a; y ← num2 b c; Some (100 * x + y).
Definition num4 (a b c d : ascii) : option Z :=
  x ← num2 a b; y ← num2 c d; Some (100 * x + y).

Definition MakeTime (h mi s ms : Z) : Z :=
  ((h * 60 + mi) * 60 + s) * 1000 + ms.

(** [TimeClip]: a time value is at most 8.64e15 milliseconds from the epoch;
    beyond that the date is invalid. *)
Definition TimeClip (t : Z) : option Z :=
  if Z.abs t <=? 8640000000000000 then Some t else None.

(** *** The date-time string format *)

(** What a string in the format denotes: an instant, or a local time still to
    be converted with the zone. *)
Inductive Reading :=
| UTCTime (t : Z)
| LocalTimeValue (t : Z).

Definition digits2 (l : list ascii) : option (Z * list ascii) :=
  match l with
  | a :: b :: r => n ← num2 a b; Some (n, r)
  | _ => None
  end.

Definition digits3 (l : list ascii) : option (Z * list ascii) :=
  match l with
  | a :: b :: c :: r => n ← num3 a b c; Some (n, r)
  | _ => None
  end.

Definition digits4 (l : list ascii) : option (Z * list ascii) :=
  match l with
  | a :: b :: c :: d :: r => n ← num4 a b c d; Some (n, r)
  | _ => None
  end.

Definition digits6 (l : list ascii) : option (Z * list ascii) :=
  '(hi, r) ← digits2 l; '(lo, r') ← digits4 r; Some (10000 * hi + lo, r').

Definition expect (c : ascii) (l : list ascii) : option (list ascii) :=
  match l with
  | a :: r => if Ascii.eqb a c then Some r else None
  | [] => None
  end.

(** [YYYY], or the expanded year [+YYYYYY], [-YYYYYY]; [-000000] is not a
    year. *)
Definition read_year (l : list ascii) : option (Z * list ascii) :=
  match l with
  | "+"%char :: r => digits6 r
  | "-"%char :: r => '(y, r') ← digits6 r; if y =? 0 then None else Some (- y, r')
  | _ => digits4 l
  end.

(** [YYYY], [YYYY-MM] or [YYYY-MM-DD]; an absent month or day is [01]. *)
Definition read_date (l : list ascii) : option (Z * Z * Z * list ascii) :=
  '(y, r) ← read_year l;
  match r with
  | "-"%char :: r1 =>
      '(m, r2) ← digits2 r1;
      match r2 with
      | "-"%char :: r3 => '(d, r4) ← digits2 r3; Some (y, m, d, r4)
      | _ => Some (y, m, 1, r2)
      end
  | _ => Some (y, 1, 1, r)
  end.

(** A month and a day that exist in the year. *)
Definition legal_date (y m d : Z) : bool :=
  (1 <=? m) && (m <=? 12) && (1 <=? d) && (d <=? 31)
  && match civil_from_days (days_from_civil y m d) with
     | (y', m', d') => (y' =? y) && (m' =? m) && (d' =? d)
     end.

(** A time of day: up to [23:59:59.999], or [24:00:00.000] for the end of the
    day. *)
Definition legal_time (h mi s ms : Z) : bool :=
  ((h <=? 23) && (mi <=? 59) && (s <=? 59))
  || ((h =? 24) && (mi =? 0) && (s =? 0) && (ms =? 0)).

Definition time_of_day (h mi s ms : Z) (r : list ascii) : option (Z * list ascii) :=
  if legal_time h mi s ms then Some (MakeTime h mi s ms, r) else None.

(** [HH:mm], [HH:mm:ss] or [HH:mm:ss.sss] *)
Definition read_time (l : list ascii) : option (Z * list ascii) :=
  '(h, r1) ← digits2 l;
  r2 ← expect ":" r1;
  '(mi, r3) ← digits2 r2;
  match r3 with
  | ":"%char :: r4 =>
      '(s, r5) ← digits2 r4;
      match r5 with
      | "."%char :: r6 => '(ms, r7) ← digits3 r6; time_of_day h mi s ms r7
      | _ => time_of_day h mi s 0 r5
      end
  | _ => time_of_day h mi 0 0 r3
  end.

Definition offset_of (sign : Z) (l : list ascii) : option (option Z) :=
  '(h, r1) ← digits2 l;
  r2 ← expect ":" r1;
  '(mi, r3) ← digits2 r2;
  match r3 with
  | [] => if (h <=? 23) && (mi <=? 59)
          then Some (Some (sign * ((h * 60 + mi) * 60000))) else None
  | _ => None
  end.

(** The end of a date-time string: nothing, [Z], [+HH:mm] or [-HH:mm]. The
    inner [None] is the absent offset. *)
Definition read_offset (l : list ascii) : option (option Z) :=
  match l with
  | [] => Some None
  | ["Z"%char] => Some (Some 0)
  | "+"%char :: r => offset_of 1 r
  | "-"%char :: r => offset_of (-1) r
  | _ => None
  end.

(** The day number a date-only string denotes. *)
Definition date_only (s : string) : option Z :=
  match read_date (list_ascii_of_string s) with
  | Some (y, m, d, []) => if legal_date y m d then Some (days_from_civil y m d) else None
  | _ => None
  end.

(** What a string in the date-time string format of ECMAScript denotes: a
    date [YYYY], [YYYY-MM] or [YYYY-MM-DD], alone or followed by [T] and a
    time [HH:mm], [HH:mm:ss] or [HH:mm:ss.sss], itself followed or not by
    [Z] or an offset. A date-only form is UTC; a date-time form without
    offset is local time. [None] for every other string, and for a string
    of that shape with an element out of range. *)
Definition read (s : string) : option Reading :=
  match date_only s with
  | Some days => Some (UTCTime (days * msPerDay))
  | None =>
      '(y, m, d, r) ← read_date (list_ascii_of_string s);
      r1 ← expect "T" r;
      '(tod, r2) ← read_time r1;
      off ← read_offset r2;
      if legal_date y m d then
        let tv := days_from_civil y m d * msPerDay + tod in
        Some (match off with
              | Some o => UTCTime (tv - o)
              | None => LocalTimeValue tv
              end)
      else None
  end.

(** [LocalTime(t)] and [UTC(t)] for a zone [tza], the [LocalTZA(t, isUTC)] of
    ECMAScript: the offset in force at the instant [t] when [isUTC] holds, at
    the local time [t] otherwise. *)
Definition LocalTime (tza : Z -> bool -> Z) (t : Z) : Z := t + tza t true.
Definition UTC (tza : Z -> bool -> Z) (t : Z) : Z := t - tza t false.

(** [Date.parse], and so [new Date(s)]: [None] is the invalid date. What a
    string that [read] does not read gives is left to the engine (the
    standard asks for the invalid date when a string of the format has an
    illegal element, and allows any fallback otherwise): it is what [other]
    says. *)
Definition parse (tza : Z -> bool -> Z) (other : string -> option Z) (s : string)
  : option Z :=
  match read s with
  | Some (UTCTime t) => TimeClip t
  | Some (LocalTimeValue t) => TimeClip (UTC tza t)
  | None => other s
  end.

(** [toISOString] of a valid date; years outside 0000 to 9999 are printed
    with a sign and six digits. *)
Definition toISOString (t : Z) : string :=
  let '(y, mo, d) := civil_from_days (t / msPerDay) in
  let r := t mod msPerDay in
  string_of_list_ascii
    ((if (0 <=? y) && (y <=? 9999) then pad4 y
      else (if y <? 0 then "-"%char else "+"%char) :: pad6 (Z.abs y))
     ++ ["-"%char] ++ pad2 mo ++ ["-"%char] ++ pad2 d ++ ["T"%char]
     ++ pad2 (r / 3600000) ++ [":"%char] ++ pad2 (r / 60000 mod 60)
     ++ [":"%char] ++ pad2 (r / 1000 mod 60) ++ ["."%char]
     ++ pad3 (r mod 1000) ++ ["Z"%char]).

(** The number of the local day an instant falls on. *)
Definition localDay (tza : Z -> bool -> Z) (t : Z) : Z := LocalTime tza t / msPerDay.

(** [setHours(h, mi, s, ms)] on a valid date: the local day of [t] is kept
    and its local time of day replaced; [None] when the result is out of
    range. *)
Definition setHours (tza : Z -> bool -> Z) (t : Z) (h mi s ms : Z) : option Z :=
  TimeClip (UTC tza (localDay tza t * msPerDay + MakeTime h mi s ms)).

End Date.


(** ** Rows of the relations [entries] and [media]
    (src/integrations/supabase/types.ts) *)

Module Entry.
Record t := {
  id : string;
  user_id : string;
  title : string;
  content : option Js.Json;
  entry_date : string;
  location_text : option string;
  weather_summary : option string;
  created_at : string;
  updated_at : string
}.
End Entry.

(** [EntryInsert = Omit<Entry, 'id' | 'created_at' | 'updated_at'>] *)
Module EntryInsert.
Record t := {
  user_id : string;
  title : string;
  content : option Js.Json;
  entry_date : string;
  location_text : option string;
  weather_summary : option string
}.
End EntryInsert.

(** [EntryUpdate = Partial<EntryInsert>]: an absent key is [None]. *)
Module EntryUpdate.
Record t := {
  user_id : option string;
  title : option string;
  content : option (option Js.Json);
  entry_date : option string;
  location_text : option (option string);
  weather_summary : option (option string)
}.
End EntryUpdate.

Module Media.
Record t := {
  id : string;
  user_id : string;
  entry_id : option string;
  storage_path : string;
  file_name : option string;
  file_size : option Z;
  mime_type : option string;
  created_at : string
}.
End Media.

(** [MediaInsert = Omit<MediaType, 'id' | 'created_at'>] *)
Module MediaInsert.
Record t := {
  user_id : string;
  entry_id : option string;
  storage_path : string;
  file_name : option string;
  file_size : option Z;
  mime_type : option string
}.
End MediaInsert.

(** ** The backend

    The relational store and the object store are external services,
    reached through the client library. The model keeps what the hooks can
    observe of them: the rows of the two relations, the blobs of the bucket
    [media], and the calls received. Each operation follows the interface
    the hooks use: select with filter, order and limit, insert returning the
    row, update and delete by filter, and upload, remove on the bucket.
    A call answers [{data, error}]; [Resolved] is an answer without error,
    [Failed] an answer with [error] set, [Rejected] an awaited call that
    raises instead of answering (the hooks guard against it with
    [try]/[catch]). *)

Module Db.

Inductive Fault :=
| NoFault
| FaultError (message : string)
| FaultThrow.

Inductive Reply (A : Type) :=
| Resolved (data : A)
| Failed (message : string)
| Rejected.
Arguments Resolved {A} data.
Arguments Failed {A} message.
Arguments Rejected {A}.

(** A select on [entries]: always filtered by owner and ordered by
    [entry_date] descending; the other parts are optional. *)
Record Query := {
  q_user : string;
  q_or : option string;
  q_gte : option string;
  q_lte : option string;
  q_limit : option nat
}.

Inductive Call :=
| StorageUpload (path : string) (file : Js.File)
| StorageRemove (paths : list string)
| MediaInsertRow (row : MediaInsert.t)
| MediaSelectPath (id user : string)
| MediaDelete (id user : string)
| EntriesSelect (q : Query)
| EntriesInsertRow (row : EntryInsert.t)
| EntriesUpdate (id user : string) (patch : EntryUpdate.t) (updated_at : string)
| EntriesDelete (id user : string).

(** What the program does not decide. Every read of the clock or of the
    random generator and every remote call takes the next index. *)
Record Env := {
  Date_now : nat -> Z;
  (** [Math.random().toString(36).substring(2)] *)
  Math_random36 : nat -> string;
  fault : nat -> Fault;
  (** the identifier and the [now()] the database gives an inserted row *)
  gen_id : nat -> string;
  db_now : nat -> string;
  (** how the database evaluates an [or] filter expression on a row *)
  or_filter : string -> Entry.t -> bool;
  (** the instant the database reads in the text of a [timestamptz] value *)
  db_instant : string -> Z;
  (** [LocalTZA(t, isUTC)]: local time minus UTC, in milliseconds *)
  LocalTZA : Z -> bool -> Z;
  (** what [Date.parse] gives for a string outside the date-time string
      format, which the standard leaves to the engine *)
  Date_parse_other : string -> option Z
}.

Record World := {
  tbl_entries : list Entry.t;
  tbl_media : list Media.t;
  bucket : gmap string Js.File;
  calls : list Call;
  tick : nat
}.

Definition bump (w : World) : World :=
  {| tbl_entries := tbl_entries w; tbl_media := tbl_media w;
     bucket := bucket w; calls := calls w; tick := S (tick w) |}.

Definition received (c : Call) (w : World) : World :=
  {| tbl_entries := tbl_entries w; tbl_media := tbl_media w;
     bucket := bucket w; calls := calls w ++ [c]; tick := S (tick w) |}.

Definition set_bucket (b : gmap string Js.File) (w : World) : World :=
  {| tbl_entries := tbl_entries w; tbl_media := tbl_media w;
     bucket := b; calls := calls w; tick := tick w |}.

Definition set_media (t : list Media.t) (w : World) : World :=
  {| tbl_entries := tbl_entries w; tbl_media := t;
     bucket := bucket w; calls := calls w; tick := tick w |}.

Definition set_entries (t : list Entry.t) (w : World) : World :=
  {| tbl_entries := t; tbl_media := tbl_media w;
     bucket := bucket w; calls := calls w; tick := tick w |}.

(** A call is logged, then either fails as the environment says or is
    served by [serve] on the state of the backend. *)
Definition remote {A} (env : Env) (c : Call)
    (serve : World -> Reply A * World) (w : World) : Reply A * World :=
  let w1 := received c w in
  match fault env (tick w) with
  | FaultThrow => (Rejected, w1)
  | FaultError m => (Failed m, w1)
  | NoFault => serve w1
  end.

(** *** Object storage *)

(** [storage.from('media').upload(path, file, {upsert: false})]: refused
    when the path is taken, otherwise the blob is stored and the path
    returned. *)
Definition storage_upload (env : Env) (path : string) (file : Js.File)
  : World -> Reply string * World :=
  remote env (StorageUpload path file) (fun w =>
    match bucket w !! path with
    | Some _ => (Failed "The resource already exists", w)
    | None => (Resolved path, set_bucket (<[path := file]> (bucket w)) w)
    end).

(** [storage.from('media').remove(paths)] *)
Definition storage_remove (env : Env) (paths : list string)
  : World -> Reply unit * World :=
  remote env (StorageRemove paths) (fun w =>
    (Resolved tt, set_bucket (foldr delete (bucket w) paths) w)).

(** *** Relation [media] *)

Definition media_row (env : Env) (n : nat) (row : MediaInsert.t) : Media.t :=
  {| Media.id := gen_id env n;
     Media.user_id := MediaInsert.user_id row;
     Media.entry_id := MediaInsert.entry_id row;
     Media.storage_path := MediaInsert.storage_path row;
     Media.file_name := MediaInsert.file_name row;
     Media.file_size := MediaInsert.file_size row;
     Media.mime_type := MediaInsert.mime_type row;
     Media.created_at := db_now env n |}.

(** [from('media').insert(row).select().single()] *)
Definition media_insert (env : Env) (row : MediaInsert.t)
  : World -> Reply Media.t * World :=
  fun w0 =>
  remote env (MediaInsertRow row) (fun w =>
    let r := media_row env (tick w0) row in
    (Resolved r, set_media (tbl_media w ++ [r]) w)) w0.

Definition media_match (id user : string) (m : Media.t) : bool :=
  String.eqb (Media.id m) id && String.eqb (Media.user_id m) user.

(** [.single()]: exactly one row, or an error. *)
Definition single {A} (rows : list A) : Reply A :=
  match rows with
  | [r] => Resolved r
  | _ => Failed "JSON object requested, multiple (or no) rows returned"
  end.

(** [from('media').select('storage_path').eq('id', id).eq('user_id', user).single()] *)
Definition media_select_path (env : Env) (id user : string)
  : World -> Reply string * World :=
  remote env (MediaSelectPath id user) (fun w =>
    (match single (List.filter (media_match id user) (tbl_media w)) with
     | Resolved m => Resolved (Media.storage_path m)
     | Failed e => Failed e
     | Rejected => Rejected
     end, w)).

(** [from('media').delete().eq('id', id).eq('user_id', user)]: the rows that
    match are removed; matching no row is not an error. *)
Definition media_delete (env : Env) (id user : string)
  : World -> Reply unit * World :=
  remote env (MediaDelete id user) (fun w =>
    (Resolved tt,
     set_media (List.filter (fun m => negb (media_match id user m)) (tbl_media w)) w)).

(** *** Relation [entries] *)

(** The instant of the column [entry_date] of a row, as the database reads
    it. *)
Definition instant (env : Env) (e : Entry.t) : Z :=
  db_instant env (Entry.entry_date e).

(** [order('entry_date', {ascending: false})] *)
Definition newer_first (env : Env) (e1 e2 : Entry.t) : Prop :=
  instant env e2 <= instant env e1.

#[export] Instance newer_first_dec (env : Env) : RelDecision (newer_first env) :=
  fun e1 e2 => Z_le_dec (instant env e2) (instant env e1).

(** [gte('entry_date', bound)] and [lte('entry_date', bound)]: the bound is
    read as a timestamp too. *)
Definition at_or_after (env : Env) (bound : string) (e : Entry.t) : bool :=
  db_instant env bound <=? instant env e.

Definition at_or_before (env : Env) (bound : string) (e : Entry.t) : bool :=
  instant env e <=? db_instant env bound.

Definition opt_filter {A} (p : option (A -> bool)) (l : list A) : list A :=
  match p with
  | Some f => List.filter f l
  | None => l
  end.

Definition opt_limit {A} (n : option nat) (l : list A) : list A :=
  match n with
  | Some k => take k l
  | None => l
  end.

(** The rows a query selects. *)
Definition select_rows (env : Env) (q : Query) (rows : list Entry.t) : list Entry.t :=
  let owned := List.filter (fun e => String.eqb (Entry.user_id e) (q_user q)) rows in
  let hit := opt_filter (or_filter env <$> q_or q) owned in
  let ranged :=
    opt_filter (at_or_before env <$> q_lte q)
      (opt_filter (at_or_after env <$> q_gte q) hit) in
  opt_limit (q_limit q) (merge_sort (newer_first env) ranged).

(** [from('entries').select('*').eq('user_id', u)...] *)
Definition entries_select (env : Env) (q : Query)
  : World -> Reply (list Entry.t) * World :=
  remote env (EntriesSelect q) (fun w =>
    (Resolved (select_rows env q (tbl_entries w)), w)).

Definition entry_row (env : Env) (n : nat) (row : EntryInsert.t) : Entry.t :=
  {| Entry.id := gen_id env n;
     Entry.user_id := EntryInsert.user_id row;
     Entry.title := EntryInsert.title row;
     Entry.content := EntryInsert.content row;
     Entry.entry_date := EntryInsert.entry_date row;
     Entry.location_text := EntryInsert.location_text row;
     Entry.weather_summary := EntryInsert.weather_summary row;
     Entry.created_at := db_now env n;
     Entry.updated_at := db_now env n |}.

(** [from('entries').insert(row).select().single()] *)
Definition entries_insert (env : Env) (row : EntryInsert.t)
  : World -> Reply Entry.t * World :=
  fun w0 =>
  remote env (EntriesInsertRow row) (fun w =>
    let r := entry_row env (tick w0) row in
    (Resolved r, set_entries (tbl_entries w ++ [r]) w)) w0.

Definition entry_match (id user : string) (e : Entry.t) : bool :=
  String.eqb (Entry.id e) id && String.eqb (Entry.user_id e) user.

Definition patched (patch : EntryUpdate.t) (updated_at : string) (e : Entry.t) : Entry.t :=
  {| Entry.id := Entry.id e;
     Entry.user_id := default (Entry.user_id e) (EntryUpdate.user_id patch);
     Entry.title := default (Entry.title e) (EntryUpdate.title patch);
     Entry.content := default (Entry.content e) (EntryUpdate.content patch);
     Entry.entry_date := default (Entry.entry_date e) (EntryUpdate.entry_date patch);
     Entry.location_text := default (Entry.location_text e) (EntryUpdate.location_text patch);
     Entry.weather_summary :=
       default (Entry.weather_summary e) (EntryUpdate.weather_summary patch);
     Entry.created_at := Entry.created_at e;
     Entry.updated_at := updated_at |}.

(** [from('entries').update({...patch, updated_at}).eq('id', id)
    .eq('user_id', user).select().single()] *)
Definition entries_update (env : Env) (id user : string)
    (patch : EntryUpdate.t) (updated_at : string)
  : World -> Reply Entry.t * World :=
  remote env (EntriesUpdate id user patch updated_at) (fun w =>
    let hit := List.filter (entry_match id user) (tbl_entries w) in
    (single (map (patched patch updated_at) hit),
     set_entries
       (map (fun e => if entry_match id user e then patched patch updated_at e else e)
            (tbl_entries w)) w)).

(** [from('entries').delete().eq('id', id).eq('user_id', user)]: the rows
    that match are removed; matching no row is not an error. *)
Definition entries_delete (env : Env) (id user : string)
  : World -> Reply unit * World :=
  remote env (EntriesDelete id user) (fun w =>
    (Resolved tt,
     set_entries (List.filter (fun e => negb (entry_match id user e)) (tbl_entries w)) w)).

End Db.

(** ** The hook useMediaUpload (src/hooks/useMediaUpload.ts) *)

Module MediaUpload.
Import Db.

Record FileTypeConfig := {
  mimeTypes : list string;
  maxSize : Z;
  extensions : list string
}.

Definition SUPPORTED_FILE_TYPES : list (string * FileTypeConfig) :=
  [ ("images"%string,
     {| mimeTypes := ["image/jpeg"; "image/png"; "image/gif"; "image/webp"]%string;
        maxSize := 10 * 1024 * 1024;
        extensions := [".jpg"; ".jpeg"; ".png"; ".gif"; ".webp"]%string |});
    ("audio"%string,
     {| mimeTypes := ["audio/mpeg"; "audio/wav"; "audio/ogg"; "audio/mp4"]%string;
        maxSize := 50 * 1024 * 1024;
        extensions := [".mp3"; ".wav"; ".ogg"; ".m4a"]%string |});
    ("video"%string,
     {| mimeTypes := ["video/mp4"; "video/webm"; "video/ogg"]%string;
        maxSize := 100 * 1024 * 1024;
        extensions := [".mp4"; ".webm"; ".ogv"]%string |});
    ("documents"%string,
     {| mimeTypes := ["application/pdf"; "text/plain"; "application/zip"]%string;
        maxSize := 25 * 1024 * 1024;
        extensions := [".pdf"; ".txt"; ".zip"]%string |}) ].

(** [Object.values(SUPPORTED_FILE_TYPES)], in insertion order. *)
Definition SUPPORTED_values : list FileTypeConfig := map snd SUPPORTED_FILE_TYPES.

Record Validation := {
  isValid : bool;
  error : option string
}.

Definition validateFile (file : Js.File) : Validation :=
  let allSupportedTypes := flat_map mimeTypes SUPPORTED_values in
  if negb (Js.includes allSupportedTypes (Js.type file)) then
    {| isValid := false;
       error := Some ("File type " +:+ Js.type file +:+ " is not supported") |}
  else
    let fileTypeConfig :=
      List.find (fun config => Js.includes (mimeTypes config) (Js.type file)) SUPPORTED_values in
    match fileTypeConfig with
    | Some config =>
        if maxSize config <? Js.size file then
          let maxSizeMB := maxSize config / (1024 * 1024) in
          {| isValid := false;
             error := Some ("File size exceeds " +:+ Js.Number_toString maxSizeMB +:+ "MB limit") |}
        else {| isValid := true; error := None |}
    | None => {| isValid := true; error := None |}
    end.

(** [UploadProgress]; [p_error] is its field [error]. *)
Record UploadProgress := {
  fileName : string;
  progress : Z;
  isComplete : bool;
  p_error : option string
}.

(** The state of the hook. The user the hook reads from the session
    provider is an argument [user] of its operations: the identifier of the
    authenticated user, [None] without a session. *)
Record State := {
  uploading : bool;
  uploadProgress : list UploadProgress
}.

Definition setUploading (b : bool) (st : State) : State :=
  {| uploading := b; uploadProgress := uploadProgress st |}.

Definition setUploadProgress (f : list UploadProgress -> list UploadProgress)
    (st : State) : State :=
  {| uploading := uploading st; uploadProgress := f (uploadProgress st) |}.

Definition generateStoragePath (env : Env) (fileName userId : string) (w : World)
  : string * World :=
  let timestamp := Date_now env (tick w) in
  let randomId := Math_random36 env (S (tick w)) in
  let extension := Js.substring (Js.lastIndexOf "." fileName) fileName in
  (userId +:+ "/" +:+ Js.Number_toString timestamp +:+ "-" +:+ randomId +:+ extension,
   bump (bump w)).

Definition updateProgress (fileName0 : string) (progress0 : Z) (isComplete0 : bool)
    (error0 : option string) : State -> State :=
  setUploadProgress (fun prev =>
    match List.find (fun p => String.eqb (fileName p) fileName0) prev with
    | Some _ =>
        map (fun p =>
               if String.eqb (fileName p) fileName0
               then {| fileName := fileName p; progress := progress0;
                       isComplete := isComplete0; p_error := error0 |}
               else p) prev
    | None =>
        prev ++ [{| fileName := fileName0; progress := progress0;
                    isComplete := isComplete0; p_error := error0 |}]
    end).

(** The state of the loop of [uploadFiles]. *)
Record Loop := {
  world : World;
  hook : State;
  uploadedMedia : list Media.t
}.

Definition unexpected (file : Js.File) (w : World) (st : State) (acc : list Media.t) : Loop :=
  {| world := w;
     hook := updateProgress (Js.name file) 0 true (Some "Unexpected error occurred"%string) st;
     uploadedMedia := acc |}.

(** The row [mediaData] of a file stored at [path]. *)
Definition mediaData (userId : string) (entryId : option string) (path : string)
    (file : Js.File) : MediaInsert.t :=
  {| MediaInsert.user_id := userId;
     MediaInsert.entry_id := Js.or_else entryId None;
     MediaInsert.storage_path := path;
     MediaInsert.file_name := Some (Js.name file);
     MediaInsert.file_size := Some (Js.size file);
     MediaInsert.mime_type := Some (Js.type file) |}.

(** The body of the loop, for one file. *)
Definition processFile (env : Env) (userId : string) (entryId : option string)
    (s : Loop) (file : Js.File) : Loop :=
  let validation := validateFile file in
  if negb (isValid validation) then
    {| world := world s;
       hook := updateProgress (Js.name file) 0 true (error validation) (hook s);
       uploadedMedia := uploadedMedia s |}
  else
    let st1 := updateProgress (Js.name file) 0 false None (hook s) in
    let '(storagePath, w1) := generateStoragePath env (Js.name file) userId (world s) in
    let st2 := updateProgress (Js.name file) 50 false None st1 in
    match storage_upload env storagePath file w1 with
    | (Rejected, w2) => unexpected file w2 st2 (uploadedMedia s)
    | (Failed message, w2) =>
        {| world := w2;
           hook := updateProgress (Js.name file) 0 true (Some message) st2;
           uploadedMedia := uploadedMedia s |}
    | (Resolved path, w2) =>
        match media_insert env (mediaData userId entryId path file) w2 with
        | (Rejected, w3) => unexpected file w3 st2 (uploadedMedia s)
        | (Failed _, w3) =>
            let st3 := updateProgress (Js.name file) 100 true
                         (Some "Failed to save file record"%string) st2 in
            match storage_remove env [path] w3 with
            | (Rejected, w4) => unexpected file w4 st3 (uploadedMedia s)
            | (_, w4) =>
                {| world := w4; hook := st3; uploadedMedia := uploadedMedia s |}
            end
        | (Resolved mediaRecord, w3) =>
            {| world := w3;
               hook := updateProgress (Js.name file) 100 true None st2;
               uploadedMedia := uploadedMedia s ++ [mediaRecord] |}
        end
    end.

(** The loop state [uploadFiles] starts from: [uploadedMedia = []],
    [setUploading(true)], [setUploadProgress([])]. *)
Definition startLoop (w : World) (st : State) : Loop :=
  {| world := w;
     hook := setUploadProgress (fun _ => []) (setUploading true st);
     uploadedMedia := [] |}.

(** [for (const file of fileArray) { ... }] *)
Definition uploadLoop (env : Env) (userId : string) (entryId : option string)
    (files : list Js.File) (s : Loop) : Loop :=
  fold_left (processFile env userId entryId) files s.

(** [uploadFiles(files, entryId)]: the records of the files that went
    through every step, with the backend and the hook afterwards. The
    progress entries are cleared by a timer three seconds later, which is
    outside this function. *)
Definition uploadFiles (env : Env) (user : option string)
    (files : list Js.File) (entryId : option string) (w : World) (st : State)
  : list Media.t * World * State :=
  match user with
  | None => ([], w, st)
  | Some userId =>
      let s := uploadLoop env userId entryId files (startLoop w st) in
      (uploadedMedia s, world s, setUploading false (hook s))
  end.

(** [deleteMedia(mediaId)] *)
Definition deleteMedia (env : Env) (user : option string) (mediaId : string)
    (w : World) : bool * World :=
  match user with
  | None => (false, w)
  | Some userId =>
      match media_select_path env mediaId userId w with
      | (Resolved storage_path, w1) =>
          match storage_remove env [storage_path] w1 with
          | (Rejected, w2) => (false, w2)
          | (_, w2) =>
              match media_delete env mediaId userId w2 with
              | (Resolved _, w3) => (true, w3)
              | (_, w3) => (false, w3)
              end
          end
      | (_, w1) => (false, w1)
      end
  end.

End MediaUpload.

(** ** The hook useEntries (second document of src/components/AppSidebar.tsx) *)

Module Entries.
Import Db.

Record EntryFormData := {
  title : string;
  content : Js.Json;
  entry_date : option string;
  location_text : option string;
  weather_summary : option string;
  tags : option (list string)
}.

Record State := {
  entries : list Entry.t;
  loading : bool;
  error : option string
}.

Definition setEntries (f : list Entry.t -> list Entry.t) (st : State) : State :=
  {| entries := f (entries st); loading := loading st; error := error st |}.
Definition setLoading (b : bool) (st : State) : State :=
  {| entries := entries st; loading := b; error := error st |}.
Definition setError (e : option string) (st : State) : State :=
  {| entries := entries st; loading := loading st; error := e |}.

(** The [or] filter expression built from a search text. *)
Definition search_filter (q : string) : string :=
  "title.ilike.%" +:+ q +:+ "%,content->>'text'.ilike.%" +:+ q +:+ "%".

(** [searchQuery && searchQuery.trim()] *)
Definition has_search (searchQuery : option string) : bool :=
  match searchQuery with
  | Some q => Js.truthy (Some q) && Js.trim_nonempty q
  | None => false
  end.

(** [loadEntries()], for the arguments [limit] and [searchQuery] of the hook. *)
Definition loadEntries (env : Env) (user : option string) (limit : nat)
    (searchQuery : option string) (w : World) (st : State) : World * State :=
  match user with
  | None => (w, setLoading false st)
  | Some userId =>
      let st1 := setError None (setLoading true st) in
      let query :=
        {| q_user := userId;
           q_or := if has_search searchQuery
                   then search_filter <$> searchQuery else None;
           q_gte := None; q_lte := None;
           q_limit := Some limit |} in
      match entries_select env query w with
      | (Failed _, w1) =>
          (w1, setLoading false (setError (Some "Failed to load entries"%string) st1))
      | (Resolved data, w1) =>
          (w1, setLoading false (setEntries (fun _ => data) st1))
      | (Rejected, w1) =>
          (w1, setLoading false (setError (Some "An unexpected error occurred"%string) st1))
      end
  end.

(** [refreshEntries()] *)
Definition refreshEntries := loadEntries.

(** The row [createEntry] builds from the form; [nowISO] is
    [new Date().toISOString()], used when the form gives no date. *)
Definition entryData (userId : string) (nowISO : string) (data : EntryFormData)
  : EntryInsert.t :=
  {| EntryInsert.user_id := userId;
     EntryInsert.title := title data;
     EntryInsert.content :=
       Some (Js.JObj [("text"%string, content data);
                      ("tags"%string, Js.JArr (map Js.JStr (default [] (tags data))))]);
     EntryInsert.entry_date := Js.or_string (entry_date data) nowISO;
     EntryInsert.location_text := Js.or_else (location_text data) None;
     EntryInsert.weather_summary := Js.or_else (weather_summary data) None |}.

(** [createEntry(data)]; the clock is read only when the form gives no
    date. *)
Definition createEntry (env : Env) (user : option string) (data : EntryFormData)
    (w : World) (st : State) : option Entry.t * World * State :=
  match user with
  | None => (None, w, st)
  | Some userId =>
      let '(nowISO, w0) :=
        if Js.truthy (entry_date data) then (""%string, w)
        else (Date.toISOString (Date_now env (tick w)), bump w) in
      match entries_insert env (entryData userId nowISO data) w0 with
      | (Resolved newEntry, w1) =>
          (Some newEntry, w1, setEntries (fun prev => newEntry :: prev) st)
      | (_, w1) => (None, w1, st)
      end
  end.

(** [updateEntry(id, data)] *)
Definition updateEntry (env : Env) (user : option string) (id : string)
    (data : EntryUpdate.t) (w : World) (st : State)
  : option Entry.t * World * State :=
  match user with
  | None => (None, w, st)
  | Some userId =>
      let updated_at := Date.toISOString (Date_now env (tick w)) in
      match entries_update env id userId data updated_at (bump w) with
      | (Resolved updatedEntry, w1) =>
          (Some updatedEntry, w1,
           setEntries (map (fun entry =>
                              if String.eqb (Entry.id entry) id
                              then updatedEntry else entry)) st)
      | (_, w1) => (None, w1, st)
      end
  end.

(** [deleteEntry(id)] *)
Definition deleteEntry (env : Env) (user : option string) (id : string)
    (w : World) (st : State) : bool * World * State :=
  match user with
  | None => (false, w, st)
  | Some userId =>
      match entries_delete env id userId w with
      | (Resolved _, w1) =>
          (true, w1,
           setEntries (List.filter (fun entry => negb (String.eqb (Entry.id entry) id))) st)
      | (_, w1) => (false, w1, st)
      end
  end.

(** [searchEntries(query)] *)
Definition searchEntries (env : Env) (user : option string) (query : string)
    (w : World) : list Entry.t * World :=
  match user with
  | None => ([], w)
  | Some userId =>
      if negb (Js.trim_nonempty query) then ([], w)
      else
        match entries_select env
                {| q_user := userId; q_or := Some (search_filter query);
                   q_gte := None; q_lte := None; q_limit := None |} w with
        | (Resolved data, w1) => (data, w1)
        | (_, w1) => ([], w1)
        end
  end.

(** [new Date(date)] followed by [setHours(h, mi, s, ms)]; [None] is the
    invalid date, which [setHours] leaves invalid. *)
Definition dayBound (env : Env) (date : string) (h mi s ms : Z) : option Z :=
  t ← Date.parse (LocalTZA env) (Date_parse_other env) date;
  Date.setHours (LocalTZA env) t h mi s ms.

(** [getEntriesByDate(date)]. On an invalid date [toISOString] raises, and
    the handler returns the empty list before any call is made. *)
Definition getEntriesByDate (env : Env) (user : option string) (date : string)
    (w : World) : list Entry.t * World :=
  match user with
  | None => ([], w)
  | Some userId =>
      match dayBound env date 0 0 0 0, dayBound env date 23 59 59 999 with
      | Some startOfDay, Some endOfDay =>
          match entries_select env
                  {| q_user := userId; q_or := None;
                     q_gte := Some (Date.toISOString startOfDay);
                     q_lte := Some (Date.toISOString endOfDay);
                     q_limit := None |} w with
          | (Resolved data, w1) => (data, w1)
          | (_, w1) => ([], w1)
          end
      | _, _ => ([], w)
      end
  end.

End Entries.

(** ** Sample environments and inputs *)

Module Sample.
Import Db.

(** A database that reads the strings of the date-time string format, with
    UTC as the zone of its session. *)
Definition read_timestamp (s : string) : Z :=
  match Date.read s with
  | Some (Date.UTCTime t) => t
  | Some (Date.LocalTimeValue t) => t
  | None => 0
  end.

(** A zone with the same offset at all times. *)
Definition fixed_zone (offset : Z) : Z -> bool -> Z := fun _ _ => offset.

(** A backend that serves every call, a clock that advances one
    millisecond per step from 2024-12-26T12:00:00Z, local time UTC, an
    engine that reads the standard date format only. *)
Definition env : Env :=
  {| Date_now := fun n => 1735214400000 + Z.of_nat n;
     Math_random36 := fun n => "k3j9x" +:+ Js.Number_toString (Z.of_nat n);
     fault := fun _ => NoFault;
     gen_id := fun n => "row-" +:+ Js.Number_toString (Z.of_nat n);
     db_now := fun n => Date.toISOString (1735214400000 + Z.of_nat n);
     or_filter := fun _ _ => true;
     db_instant := read_timestamp;
     LocalTZA := fixed_zone 0;
     Date_parse_other := fun _ => None |}.

(** The same with the call of index [k] answering with an error. *)
Definition failing_at (k : nat) : Env :=
  {| Date_now := Date_now env; Math_random36 := Math_random36 env;
     fault := fun n => if Nat.eqb n k then FaultError "connection reset" else NoFault;
     gen_id := gen_id env; db_now := db_now env;
     or_filter := or_filter env; db_instant := db_instant env;
     LocalTZA := LocalTZA env; Date_parse_other := Date_parse_other env |}.

(** The same with the call of index [k] raising instead of answering. *)
Definition raising_at (k : nat) : Env :=
  {| Date_now := Date_now env; Math_random36 := Math_random36 env;
     fault := fun n => if Nat.eqb n k then FaultThrow else NoFault;
     gen_id := gen_id env; db_now := db_now env;
     or_filter := or_filter env; db_instant := db_instant env;
     LocalTZA := LocalTZA env; Date_parse_other := Date_parse_other env |}.

(** The same with every call from the index [k] on answering with an error. *)
Definition failing_from (k : nat) : Env :=
  {| Date_now := Date_now env; Math_random36 := Math_random36 env;
     fault := fun n => if Nat.leb k n then FaultError "connection reset" else NoFault;
     gen_id := gen_id env; db_now := db_now env;
     or_filter := or_filter env; db_instant := db_instant env;
     LocalTZA := LocalTZA env; Date_parse_other := Date_parse_other env |}.

(** The same one hour east of UTC. *)
Definition env_east : Env :=
  {| Date_now := Date_now env; Math_random36 := Math_random36 env;
     fault := fault env; gen_id := gen_id env; db_now := db_now env;
     or_filter := or_filter env; db_instant := db_instant env;
     LocalTZA := fixed_zone 3600000; Date_parse_other := Date_parse_other env |}.

(** A clock and a random generator that repeat themselves. *)
Definition env_frozen : Env :=
  {| Date_now := fun _ => 1735214400000;
     Math_random36 := fun _ => "k3j9x"%string;
     fault := fault env; gen_id := gen_id env; db_now := db_now env;
     or_filter := or_filter env; db_instant := db_instant env;
     LocalTZA := LocalTZA env; Date_parse_other := Date_parse_other env |}.

Definition empty_world : World :=
  {| tbl_entries := []; tbl_media := []; bucket := ∅; calls := []; tick := 0 |}.

Definition entry (id user date : string) : Entry.t :=
  {| Entry.id := id; Entry.user_id := user; Entry.title := "t";
     Entry.content := None; Entry.entry_date := date;
     Entry.location_text := None; Entry.weather_summary := None;
     Entry.created_at := date; Entry.updated_at := date |}.

Definition world_with (rows : list Entry.t) : World :=
  {| tbl_entries := rows; tbl_media := []; bucket := ∅; calls := []; tick := 0 |}.

Definition idle_entries : Entries.State :=
  {| Entries.entries := []; Entries.loading := false; Entries.error := None |}.

Definition idle_upload : MediaUpload.State :=
  {| MediaUpload.uploading := false; MediaUpload.uploadProgress := [] |}.

Definition photo : Js.File :=
  {| Js.name := "beach.png"; Js.size := 2048; Js.type := "image/png" |}.
Definition song : Js.File :=
  {| Js.name := "tune.mp3"; Js.size := 4096; Js.type := "audio/mpeg" |}.
Definition program : Js.File :=
  {| Js.name := "setup.exe"; Js.size := 1024; Js.type := "application/x-msdownload" |}.

Definition form : Entries.EntryFormData :=
  {| Entries.title := "Morning Walk"; Entries.content := Js.JStr "quiet";
     Entries.entry_date := Some "2024-12-26T08:00:00.000Z"%string;
     Entries.location_text := Some "Park"%string;
     Entries.weather_summary := Some "Sunny"%string;
     Entries.tags := Some ["walk"; "morning"]%string |}.

(** A form whose optional fields are supplied as empty strings. *)
Definition form_blank : Entries.EntryFormData :=
  {| Entries.title := "Notes"; Entries.content := Js.JStr "a morning coffee";
     Entries.entry_date := Some ""%string;
     Entries.location_text := Some ""%string;
     Entries.weather_summary := Some ""%string;
     Entries.tags := None |}.



Definition loaded (rows : list Entry.t) : Entries.State :=
  {| Entries.entries := rows; Entries.loading := false; Entries.error := None |}.

Definition entry_mine : Entry.t := entry "e1" "u1" "2024-12-26T08:00:00.000Z".
Definition entry_theirs : Entry.t := entry "e2" "u2" "2024-12-26T09:00:00.000Z".

(** The same five hours west of UTC. *)
Definition env_west : Env :=
  {| Date_now := Date_now env; Math_random36 := Math_random36 env;
     fault := fault env; gen_id := gen_id env; db_now := db_now env;
     or_filter := or_filter env; db_instant := db_instant env;
     LocalTZA := fixed_zone (-18000000); Date_parse_other := Date_parse_other env |}.

(** The entries of the boundary example, and one of another user. *)
Definition last_instant : Entry.t := entry "a" "u1" "2024-12-26T23:59:59.999Z".
Definition next_midnight : Entry.t := entry "b" "u1" "2024-12-27T00:00:00.000Z".
Definition early_morning : Entry.t := entry "c" "u1" "2024-12-26T03:00:00.000Z".
Definition foreign : Entry.t := entry "d" "u2" "2024-12-26T12:00:00.000Z".
Definition afternoon : Entry.t := entry "e" "u1" "2024-12-26T15:00:00.000Z".
Definition day_before : Entry.t := entry "f" "u1" "2024-12-25T15:00:00.000Z".

Definition boundary_world : World :=
  world_with [early_morning; next_midnight; foreign; last_instant].

(** The zone of Berlin in 2024: one hour east of UTC, two from
    2024-03-31T01:00:00Z to 2024-10-27T01:00:00Z. A local time the change
    skips or repeats takes the offset in force before the change. *)
Definition berlin_2024 (t : Z) (isUTC : bool) : Z :=
  if isUTC then
    if (1711846800000 <=? t) && (t <? 1729990800000) then 7200000 else 3600000
  else
    if (1711854000000 <=? t) && (t <? 1729998000000) then 7200000 else 3600000.

Definition env_berlin : Env :=
  {| Date_now := Date_now env; Math_random36 := Math_random36 env;
     fault := fault env; gen_id := gen_id env; db_now := db_now env;
     or_filter := or_filter env; db_instant := db_instant env;
     LocalTZA := berlin_2024; Date_parse_other := Date_parse_other env |}.

Definition spring_noon : Entry.t := entry "y" "u1" "2024-03-31T12:00:00.000Z".
Definition spring_late : Entry.t := entry "x" "u1" "2024-03-31T22:30:00.000Z".

End Sample.


(** ** Notions used to state the properties *)

Module Spec.
Import Db.

(** The supported-type table as the specification words it: every accepted
    content type with the ceiling of its category, in bytes. *)
Definition spec_ceiling (mime : string) : option Z :=
  if Js.includes ["image/jpeg"; "image/png"; "image/gif"; "image/webp"]%string mime
  then Some (10 * 1048576)
  else if Js.includes ["audio/mpeg"; "audio/wav"; "audio/ogg"; "audio/mp4"]%string mime
  then Some (50 * 1048576)
  else if Js.includes ["video/mp4"; "video/webm"; "video/ogg"]%string mime
  then Some (100 * 1048576)
  else if Js.includes ["application/pdf"; "text/plain"; "application/zip"]%string mime
  then Some (25 * 1048576)
  else None.

(** The clock reading [createEntry] uses for a form without a date. *)
Definition nowISO_of (env : Env) (data : Entries.EntryFormData) (w : World) : string :=
  if Js.truthy (Entries.entry_date data) then ""%string
  else Date.toISOString (Date_now env (tick w)).

(** Whether a character occurs in a string. *)
Fixpoint has_char (c : ascii) (s : string) : bool :=
  match s with
  | EmptyString => false
  | String a s' => Ascii.eqb a c || has_char c s'
  end.

(** A media record that carries the metadata of a file. *)
Definition record_of (file : Js.File) (m : Media.t) : Prop :=
  Media.file_name m = Some (Js.name file)
  /\ Media.file_size m = Some (Js.size file)
  /\ Media.mime_type m = Some (Js.type file).

(** The positions, counted from the backend [w] a file is processed from, of
    the calls [uploadFiles] makes for it: the clock and the random generator
    are read first, then come the upload, the insert and, after a failed
    insert, the removal. *)
Definition upload_tick (w : World) : nat := S (S (tick w)).
Definition insert_tick (w : World) : nat := S (S (S (tick w))).
Definition remove_tick (w : World) : nat := S (S (S (S (tick w)))).

(** The caller's entries dated from the instant [lo] to the instant [hi],
    both included. *)
Definition dated_within (env : Env) (lo hi : Z) (userId : string) (e : Entry.t) : bool :=
  String.eqb (Entry.user_id e) userId
  && (lo <=? instant env e) && (instant env e <=? hi).

(** The zone has the offset [c] at every time from [lo] to [hi], and never an
    offset of a day or more. *)
Definition steady (tza : Z -> bool -> Z) (c lo hi : Z) : Prop :=
  (forall x b, - Date.msPerDay < tza x b < Date.msPerDay)
  /\ (forall x b, lo <= x <= hi -> tza x b = c).

End Spec.

(** ** More of the JavaScript runtime, for the components *)

Module JsMore.

(** Truthiness of a JSON value: [null], [false], [0] and the empty string are
    falsy; arrays and objects are truthy. *)
Definition truthy_value (j : Js.Json) : bool :=
  match j with
  | Js.JNull => false
  | Js.JBool b => b
  | Js.JNum n => negb (n =? 0)
  | Js.JStr s => negb (String.eqb s "")
  | Js.JArr _ | Js.JObj _ => true
  end.

(** [typeof j === 'object'] for a value that is not [null]. *)
Definition is_object (j : Js.Json) : bool :=
  match j with
  | Js.JArr _ | Js.JObj _ => true
  | _ => false
  end.

(** [j.k] on an object; [undefined] is [None]. The keys of an object are
    taken to be distinct. An array has no such property. *)
Definition get (k : string) (j : Js.Json) : option Js.Json :=
  match j with
  | Js.JObj fields => snd <$> List.find (fun kv => String.eqb (fst kv) k) fields
  | _ => None
  end.

(** The text without the white space and line terminators it starts with. *)
Fixpoint trimStart (l : list ascii) : list ascii :=
  match l with
  | [] => []
  | a :: l1 =>
      if Js.is_space a then trimStart l1
      else
        match l1 with
        | b :: l2 =>
            if Js.is_space2 a b then trimStart l2
            else
              match l2 with
              | c :: l3 => if Js.is_space3 a b c then trimStart l3 else l
              | [] => l
              end
        | [] => l
        end
  end.

(** The same from the end, on the reversed text: the bytes of a character
    come last byte first. *)
Fixpoint trimEnd_rev (l : list ascii) : list ascii :=
  match l with
  | [] => []
  | a :: l1 =>
      if Js.is_space a then trimEnd_rev l1
      else
        match l1 with
        | b :: l2 =>
            if Js.is_space2 b a then trimEnd_rev l2
            else
              match l2 with
              | c :: l3 => if Js.is_space3 c b a then trimEnd_rev l3 else l
              | [] => l
              end
        | [] => l
        end
  end.

(** [s.trim()] *)
Definition trim (s : string) : string :=
  string_of_list_ascii
    (rev (trimEnd_rev (rev (trimStart (list_ascii_of_string s))))).

(** [s.toLowerCase()] follows the case mappings of the Unicode Character
    Database, which are no part of the program: the handlers that call it
    take it as a parameter. [ascii_toLowerCase] is what it does on a text
    whose only cased letters are those of ASCII. *)
Definition lower_char (c : ascii) : ascii :=
  let n := nat_of_ascii c in
  if (65 <=? n)%nat && (n <=? 90)%nat then ascii_of_nat (n + 32) else c.

Fixpoint ascii_toLowerCase (s : string) : string :=
  match s with
  | EmptyString => EmptyString
  | String c s' => String (lower_char c) (ascii_toLowerCase s')
  end.

End JsMore.

(** ** The component EntryFeed (first document of src/unnamed/part_002) *)

Module Feed.
Import Db.

(** [getTextContent(content)]; the value returned is typed [string] but is
    whatever [content.text] holds. *)
Definition getTextContent (content : option Js.Json) : Js.Json :=
  match content with
  | Some (Js.JStr s) => Js.JStr s
  | Some c =>
      if JsMore.truthy_value c && JsMore.is_object c then
        match JsMore.get "text" c with
        | Some v => if JsMore.truthy_value v then v else Js.JStr ""
        | None => Js.JStr ""
        end
      else Js.JStr ""
  | None => Js.JStr ""
  end.

(** [getTags(content)] *)
Definition getTags (content : option Js.Json) : list Js.Json :=
  match content with
  | Some c =>
      if JsMore.truthy_value c && JsMore.is_object c then
        match JsMore.get "tags" c with
        | Some v =>
            if JsMore.truthy_value v
            then match v with Js.JArr xs => xs | _ => [] end
            else []
        | None => []
        end
      else []
  | None => []
  end.

(** [handleDeleteEntry(entryId)]; [confirmed] is the answer to
    [window.confirm]. The hook is [useEntries(limit, searchQuery)]. *)
Definition handleDeleteEntry (env : Env) (user : option string) (limit : nat)
    (searchQuery : option string) (confirmed : bool) (entryId : string)
    (w : World) (st : Entries.State) : World * Entries.State :=
  if confirmed then
    match Entries.deleteEntry env user entryId w st with
    | (true, w1, st1) => Entries.refreshEntries env user limit searchQuery w1 st1
    | (false, w1, st1) => (w1, st1)
    end
  else (w, st).

End Feed.

(** ** The tag handlers of the component EntryEditor (src/unnamed/part_000) *)

Module Editor.

(** The part of the form the tag handlers use. *)
Record TagState := {
  tags : list string;
  currentTag : string
}.

(** [handleAddTag()]; [toLowerCase] is the method of the engine. *)
Definition handleAddTag (toLowerCase : string -> string) (st : TagState) : TagState :=
  let trimmedTag := toLowerCase (JsMore.trim (currentTag st)) in
  if Js.truthy (Some trimmedTag) && negb (Js.includes (tags st) trimmedTag)
  then {| tags := tags st ++ [trimmedTag]; currentTag := "" |}
  else st.

(** [handleRemoveTag(tagToRemove)] *)
Definition handleRemoveTag (tagToRemove : string) (st : TagState) : TagState :=
  {| tags := List.filter (fun tag => negb (String.eqb tag tagToRemove)) (tags st);
     currentTag := currentTag st |}.

(** What the user does in the tag field. *)
Inductive TagAction :=
| Type_ (text : string)
| Add
| Remove (tag : string).

Definition tag_step (toLowerCase : string -> string) (st : TagState) (a : TagAction)
  : TagState :=
  match a with
  | Type_ text => {| tags := tags st; currentTag := text |}
  | Add => handleAddTag toLowerCase st
  | Remove tag => handleRemoveTag tag st
  end.

(** The form as it starts: no tag, empty field. *)
Definition no_tags : TagState := {| tags := []; currentTag := "" |}.

End Editor.

(** ** Notions used to state the further properties *)

Module Notions.
Import Db.

(** The file names of the progress entries, in the order of the list. *)
Definition progress_names (st : MediaUpload.State) : list string :=
  map MediaUpload.fileName (MediaUpload.uploadProgress st).

(** A progress entry that reached its final state. *)
Definition terminal (p : MediaUpload.UploadProgress) : Prop :=
  MediaUpload.isComplete p = true
  /\ (MediaUpload.progress p = 0 \/ MediaUpload.progress p = 100).

(** The blob of a media record is in the bucket. *)
Definition has_blob (w : World) (m : Media.t) : Prop :=
  is_Some (bucket w !! Media.storage_path m).

(** Every blob of [w] is still in [w'], unchanged. *)
Definition blobs_kept (w w' : World) : Prop :=
  forall p f, bucket w !! p = Some f -> bucket w' !! p = Some f.

(** The media record [m] was added for [file] between [w] and [w']: it
    belongs to the user and the entry, describes the file, and its path was
    free in [w] and holds the file in [w']. *)
Definition added_for (userId : string) (entryId : option string)
    (w w' : World) (file : Js.File) (m : Media.t) : Prop :=
  Media.user_id m = userId
  /\ Media.entry_id m = Js.or_else entryId None
  /\ Spec.record_of file m
  /\ bucket w !! Media.storage_path m = None
  /\ bucket w' !! Media.storage_path m = Some file.

(** The rows [loadEntries] asks for, before ordering and limit: those of the
    user, and with a search text that is not blank those the search filter
    lets through. *)
Definition wanted (env : Env) (userId : string) (searchQuery : option string)
    (e : Entry.t) : bool :=
  String.eqb (Entry.user_id e) userId
  && match searchQuery with
     | Some q => if Js.trim_nonempty q
                 then or_filter env (Entries.search_filter q) e else true
     | None => true
     end.

(** A tag list without duplicates whose tags are non-empty, each the
    lowercase form of a trimmed text. *)
Definition tags_ok (toLowerCase : string -> string) (l : list string) : Prop :=
  NoDup l
  /\ Forall (fun t => t <> ""%string
                      /\ exists text, t = toLowerCase (JsMore.trim text)) l.

End Notions.

(** ** Further sample data *)

Module Fixtures.
Import Db.

(** A backend that answers every call with an error. *)
Definition env_down : Env :=
  {| Date_now := Date_now Sample.env; Math_random36 := Math_random36 Sample.env;
     fault := fun _ => FaultError "service unavailable";
     gen_id := gen_id Sample.env; db_now := db_now Sample.env;
     or_filter := or_filter Sample.env; db_instant := db_instant Sample.env;
     LocalTZA := LocalTZA Sample.env;
     Date_parse_other := Date_parse_other Sample.env |}.

Definition media (id user path : string) : Media.t :=
  {| Media.id := id; Media.user_id := user; Media.entry_id := None;
     Media.storage_path := path; Media.file_name := Some "beach.png"%string;
     Media.file_size := Some 2048; Media.mime_type := Some "image/png"%string;
     Media.created_at := "2024-12-01T00:00:00.000Z" |}.

Definition media_mine : Media.t := media "m1" "u1" "u1/1733011200000-abc.png".
Definition media_theirs : Media.t := media "m2" "u2" "u2/1733011200000-abc.png".

(** A store with one entry and one media record, blob included, for each of
    two users. *)
Definition stocked : World :=
  {| tbl_entries := [Sample.entry_mine; Sample.entry_theirs];
     tbl_media := [media_mine; media_theirs];
     bucket := <[Media.storage_path media_mine := Sample.photo]>
                 (<[Media.storage_path media_theirs := Sample.photo]> ∅);
     calls := []; tick := 0 |}.

(** A patch that changes the title and clears the location. *)
Definition retitle : EntryUpdate.t :=
  {| EntryUpdate.user_id := None; EntryUpdate.title := Some "Evening Walk"%string;
     EntryUpdate.content := None; EntryUpdate.entry_date := None;
     EntryUpdate.location_text := Some None; EntryUpdate.weather_summary := None |}.

(** The tag field while the user types a second tag. *)
Definition typing : Editor.TagState :=
  {| Editor.tags := ["walk"]%string; Editor.currentTag := "  Park " |}.

(** A no-break space (U+00A0), and a text between a no-break space and an
    ideographic space (U+3000), in UTF-8. *)
Definition nbsp : string := String "194" (String "160" "").
Definition padded : string :=
  nbsp +:+ "Park" +:+ String "227" (String "128" (String "128" "")).

End Fixtures.

(** * Properties *)

Import Db.
Import Spec.

(** Goals with division and remainder by constants. *)
Ltac zdiv := Z.div_mod_to_equations; lia.

(** ** Validation *)

Section validate.
Import MediaUpload.

Example validate_png_at_ceiling :
  validateFile {| Js.name := "a.png"; Js.size := 10485760; Js.type := "image/png" |}
  = {| isValid := true; error := None |}.
Proof. reflexivity. Qed.

Example validate_png_over_ceiling :
  validateFile {| Js.name := "a.png"; Js.size := 10485761; Js.type := "image/png" |}
  = {| isValid := false; error := Some "File size exceeds 10MB limit"%string |}.
Proof. vm_compute. reflexivity. Qed.

Example validate_unknown_type :
  validateFile Sample.program
  = {| isValid := false;
       error := Some "File type application/x-msdownload is not supported"%string |}.
Proof. vm_compute. reflexivity. Qed.

(** Both the code and the table of the specification scan the same content
    types in the same order: one case per type settles both. *)
Ltac by_type file :=
  repeat match goal with
  | |- context [String.eqb (Js.type file) ?s] =>
      destruct (String.eqb (Js.type file) s) eqn:?; cbn
  end.

Lemma validateFile_cases (file : Js.File) :
  match spec_ceiling (Js.type file) with
  | Some c =>
      if c <? Js.size file
      then isValid (validateFile file) = false
           /\ exists reason, error (validateFile file) = Some reason
      else validateFile file = {| isValid := true; error := None |}
  | None =>
      isValid (validateFile file) = false
      /\ exists reason, error (validateFile file) = Some reason
  end.
Proof.
  unfold validateFile, spec_ceiling, Js.includes. cbn.
  by_type file;
    try (destruct (_ <? Js.size file); cbn; eauto; fail);
    eauto.
Qed.

(** C4. [validateFile] accepts a file exactly when its declared content
    type is in the supported-type table and its size is at most the ceiling
    of that type (10 MB images, 50 MB audio, 100 MB video, 25 MB documents,
    with 1 MB = 1048576 bytes); an accepted file carries no reason and a
    refused one carries a reason. The function is a pure function of the
    file: it takes no state and issues no call. *)
Theorem validateFile_accepts_exactly (file : Js.File) :
  (isValid (validateFile file) = true <->
     exists c, spec_ceiling (Js.type file) = Some c /\ Js.size file <= c)
  /\ (isValid (validateFile file) = true /\ error (validateFile file) = None
      \/ isValid (validateFile file) = false
         /\ exists reason, error (validateFile file) = Some reason).
Proof.
  pose proof (validateFile_cases file) as H.
  destruct (spec_ceiling (Js.type file)) as [c|] eqn:Hc.
  - destruct (c <? Js.size file) eqn:Hlt.
    + destruct H as [Hv He]. apply Z.ltb_lt in Hlt. split.
      * rewrite Hv. split; [discriminate|].
        intros (c' & [= <-] & Hle). lia.
      * right. auto.
    + rewrite H. cbn. apply Z.ltb_ge in Hlt. split.
      * split; [|reflexivity]. intros _. exists c. auto.
      * left. auto.
  - destruct H as [Hv He]. split.
    + rewrite Hv. split; [discriminate|]. intros (c' & [=] & _).
    + right. auto.
Qed.

End validate.

(** ** Calls made without an authenticated user *)

(** C6. Without an authenticated user no operation reaches the backend:
    [uploadFiles] returns the empty sequence, [createEntry] and [updateEntry]
    return null, [deleteEntry] and [deleteMedia] return false, and the list,
    search and date queries return without a call. The backend, with its log
    of received calls, is the one the operation started from. *)
Theorem unauthenticated_no_remote_work
    (env : Env) (w : World) (ust : MediaUpload.State) (est : Entries.State)
    (files : list Js.File) (entryId : option string)
    (data : Entries.EntryFormData) (patch : EntryUpdate.t)
    (id mediaId query date : string) (limit : nat) (searchQuery : option string) :
  MediaUpload.uploadFiles env None files entryId w ust = ([], w, ust)
  /\ Entries.createEntry env None data w est = (None, w, est)
  /\ Entries.updateEntry env None id patch w est = (None, w, est)
  /\ Entries.deleteEntry env None id w est = (false, w, est)
  /\ MediaUpload.deleteMedia env None mediaId w = (false, w)
  /\ Entries.loadEntries env None limit searchQuery w est
     = (w, Entries.setLoading false est)
  /\ Entries.searchEntries env None query w = ([], w)
  /\ Entries.getEntriesByDate env None date w = ([], w).
Proof. repeat split. Qed.

(** ** Loading the list *)

Lemma remote_faulty {A} (env : Env) (c : Call) (serve : World -> Reply A * World)
    (w : World) :
  fault env (tick w) <> NoFault ->
  snd (remote env c serve w) = received c w
  /\ forall data, fst (remote env c serve w) <> Resolved data.
Proof.
  intros H. unfold remote. destruct (fault env (tick w)); [congruence| |];
    split; auto; discriminate.
Qed.

Lemma remote_healthy {A} (env : Env) (c : Call) (serve : World -> Reply A * World)
    (w : World) :
  fault env (tick w) = NoFault ->
  remote env c serve w = serve (received c w).
Proof. intros H. unfold remote. now rewrite H. Qed.

(** C8. When the fetch of [loadEntries] fails, by an error answer or by
    raising, the hook records an error message and the in-memory list is the
    one it held before the call. *)
Theorem loadEntries_failure_keeps_entries
    (env : Env) (userId : string) (limit : nat) (searchQuery : option string)
    (w : World) (st : Entries.State) :
  fault env (tick w) <> NoFault ->
  let st' := snd (Entries.loadEntries env (Some userId) limit searchQuery w st) in
  Entries.entries st' = Entries.entries st
  /\ (exists message, Entries.error st' = Some message)
  /\ Entries.loading st' = false.
Proof.
  intros H. cbn. unfold entries_select, remote.
  destruct (fault env (tick w)); [congruence| |]; cbn; eauto.
Qed.

Lemma loadEntries_failure_keeps_entries_witness :
  let w := Sample.world_with [Sample.entry "e1" "u1" "2024-12-26T08:00:00.000Z"] in
  let st := {| Entries.entries := [Sample.entry "e0" "u1" "2024-12-25T08:00:00.000Z"];
               Entries.loading := false; Entries.error := None |} in
  let st' := snd (Entries.loadEntries (Sample.failing_at 0) (Some "u1"%string) 10 None w st) in
  Entries.entries st' = Entries.entries st
  /\ (exists message, Entries.error st' = Some message)
  /\ Entries.loading st' = false.
Proof.
  intros w st.
  apply (loadEntries_failure_keeps_entries (Sample.failing_at 0) "u1" 10 None w st).
  cbn. discriminate.
Defined.

(** ** Creating an entry *)

(** What one call of [createEntry] does, for an authenticated user. *)
Lemma createEntry_inv (env : Env) (userId : string) (data : Entries.EntryFormData)
    (w : World) (st : Entries.State) :
  let row := Entries.entryData userId (nowISO_of env data w) data in
  let '(result, w1, st1) := Entries.createEntry env (Some userId) data w st in
  last (calls w1) = Some (EntriesInsertRow row)
  /\ ((exists n, result = Some (entry_row env n row)
        /\ tbl_entries w1 = tbl_entries w ++ [entry_row env n row]
        /\ st1 = Entries.setEntries (fun prev => entry_row env n row :: prev) st)
      \/ (result = None /\ tbl_entries w1 = tbl_entries w /\ st1 = st)).
Proof.
  unfold Entries.createEntry, nowISO_of.
  destruct (Js.truthy (Entries.entry_date data)); unfold entries_insert, remote; cbn.
  - destruct (fault env (tick w)); cbn; (split; [apply last_snoc|]); eauto.
  - destruct (fault env (S (tick w))); cbn; (split; [apply last_snoc|]); eauto.
Qed.

(** C10. [createEntry] applies its defaults with a falsiness test: an
    empty-string [location_text] or [weather_summary] is sent to the store as
    null, and an empty-string [entry_date] is replaced by the current time.
    The row of the insert call carries these values, and so does the entry
    stored and returned when the insert succeeds. *)
Theorem createEntry_coerces_empty_strings
    (env : Env) (userId : string) (data : Entries.EntryFormData)
    (w : World) (st : Entries.State) :
  let '(result, w1, _) := Entries.createEntry env (Some userId) data w st in
  exists row,
    last (calls w1) = Some (EntriesInsertRow row)
    /\ (Entries.location_text data = Some ""%string -> EntryInsert.location_text row = None)
    /\ (Entries.weather_summary data = Some ""%string ->
        EntryInsert.weather_summary row = None)
    /\ (Entries.entry_date data = Some ""%string ->
        EntryInsert.entry_date row = Date.toISOString (Date_now env (tick w)))
    /\ (forall e, result = Some e ->
        e ∈ tbl_entries w1
        /\ Entry.location_text e = EntryInsert.location_text row
        /\ Entry.weather_summary e = EntryInsert.weather_summary row
        /\ Entry.entry_date e = EntryInsert.entry_date row).
Proof.
  pose proof (createEntry_inv env userId data w st) as H. cbv zeta in H.
  destruct (Entries.createEntry env (Some userId) data w st) as [[result w1] st1].
  destruct H as [Hcall Hres].
  eexists. split; [exact Hcall|]. cbn.
  split; [intros ->; reflexivity|].
  split; [intros ->; reflexivity|].
  split; [unfold nowISO_of; intros ->; reflexivity|].
  intros e He. destruct Hres as [(n & Hr & Ht & _)|(Hr & _)]; [|congruence].
  rewrite Hr in He. injection He as <-. rewrite Ht.
  repeat split. apply elem_of_app. right. apply list_elem_of_singleton. reflexivity.
Qed.

Example createEntry_blank_form :
  exists e w1 st1,
    Entries.createEntry Sample.env (Some "u1"%string) Sample.form_blank
      Sample.empty_world Sample.idle_entries = (Some e, w1, st1)
    /\ Entry.location_text e = None
    /\ Entry.weather_summary e = None
    /\ Entry.entry_date e = "2024-12-26T12:00:00.000Z"%string.
Proof. vm_compute. eexists _, _, _. repeat split. Qed.

(** After a successful create, the hook holds the new entry first. *)
Lemma createEntry_inv_some (env : Env) (userId : string) (data : Entries.EntryFormData)
    (w : World) (st : Entries.State) (e : Entry.t) (w1 : World) (st1 : Entries.State) :
  Entries.createEntry env (Some userId) data w st = (Some e, w1, st1) ->
  exists n,
    e = entry_row env n (Entries.entryData userId (nowISO_of env data w) data)
    /\ tbl_entries w1 = tbl_entries w ++ [e]
    /\ Entries.entries st1 = e :: Entries.entries st.
Proof.
  intros E. pose proof (createEntry_inv env userId data w st) as H.
  cbv zeta in H. rewrite E in H.
  destruct H as [_ [(n & [= ->] & Ht & ->)|([=] & _)]]. eauto.
Qed.

(** ** Sorting by date *)

#[local] Instance newer_first_total (env : Env) : Total (newer_first env).
Proof. intros e1 e2. unfold newer_first. lia. Qed.

#[local] Instance newer_first_trans (env : Env) : Transitive (newer_first env).
Proof. intros e1 e2 e3. unfold newer_first. lia. Qed.

Lemma In_elem_of {A} (x : A) (l : list A) : In x l <-> x ∈ l.
Proof. symmetry. apply list_elem_of_In. Qed.

Lemma elem_of_bfilter {A} (p : A -> bool) (l : list A) (x : A) :
  x ∈ List.filter p l <-> x ∈ l /\ p x = true.
Proof. rewrite <- !In_elem_of. apply filter_In. Qed.






(** ** Deleting an entry *)

Lemma bfilter_idem {A} (p : A -> bool) (l : list A) :
  List.filter p (List.filter p l) = List.filter p l.
Proof.
  induction l as [|x l IH]; [reflexivity|]. cbn.
  destruct (p x) eqn:E; cbn; [rewrite E, IH|]; auto.
Qed.

Lemma entry_match_spec (id user : string) (e : Entry.t) :
  entry_match id user e = true <-> Entry.id e = id /\ Entry.user_id e = user.
Proof.
  unfold entry_match. rewrite andb_true_iff, !String.eqb_eq. reflexivity.
Qed.

(** C2, as stated, fails. The store holds one entry of the caller [u1] and
    one of another user. Deleting the caller's entry twice answers true both
    times; deleting the other user's entry answers true and leaves the row in
    place; deleting an identifier no row has answers true. *)
Lemma deleteEntry_twice_true :
  let w := Sample.world_with [Sample.entry_mine; Sample.entry_theirs] in
  let st := Sample.loaded [Sample.entry_mine] in
  let u := Some "u1"%string in
  exists w1 st1 w2 st2,
    Entries.deleteEntry Sample.env u "e1" w st = (true, w1, st1)
    /\ Entries.deleteEntry Sample.env u "e1" w1 st1 = (true, w2, st2)
    /\ (exists w3 st3,
          Entries.deleteEntry Sample.env u "e2" w st = (true, w3, st3)
          /\ tbl_entries w3 = tbl_entries w)
    /\ fst (fst (Entries.deleteEntry Sample.env u "no-such-row" w st)) = true.
Proof.
  intros w st u. eexists _, _, _, _.
  split; [vm_compute; reflexivity|].
  split; [vm_compute; reflexivity|].
  split; [|vm_compute; reflexivity].
  eexists _, _. split; vm_compute; reflexivity.
Qed.

(** C2, amended. For an authenticated caller, [deleteEntry] answers by the
    outcome of the remote call, not by whether a row matched. When the call
    succeeds it returns true; the table then holds the former rows except
    those with this id owned by the caller, and the in-memory list its former
    elements except those with this id. A second call that succeeds returns
    true again and changes neither the table nor the list. When the call
    fails it returns false and the table and the hook are unchanged. *)
Theorem deleteEntry_follows_remote_outcome
    (env : Env) (userId id : string) (w : World) (st : Entries.State) :
  let '(ok, w1, st1) := Entries.deleteEntry env (Some userId) id w st in
  (fault env (tick w) = NoFault ->
     ok = true
     /\ (forall e, e ∈ tbl_entries w1 <->
                   e ∈ tbl_entries w /\ ~ (Entry.id e = id /\ Entry.user_id e = userId))
     /\ (forall e, e ∈ Entries.entries st1 <->
                   e ∈ Entries.entries st /\ Entry.id e <> id)
     /\ (fault env (tick w1) = NoFault ->
         let '(ok2, w2, st2) := Entries.deleteEntry env (Some userId) id w1 st1 in
         ok2 = true
         /\ tbl_entries w2 = tbl_entries w1
         /\ Entries.entries st2 = Entries.entries st1))
  /\ (fault env (tick w) <> NoFault ->
      ok = false /\ tbl_entries w1 = tbl_entries w /\ st1 = st).
Proof.
  unfold Entries.deleteEntry, entries_delete, remote.
  destruct (fault env (tick w)) eqn:Hf; cbn.
  - split; [intros _|congruence].
    split; [reflexivity|].
    split.
    { intros e. rewrite elem_of_bfilter, negb_true_iff, <- not_true_iff_false,
        entry_match_spec. reflexivity. }
    split.
    { intros e. rewrite elem_of_bfilter, negb_true_iff, String.eqb_neq. reflexivity. }
    intros ->. cbn. rewrite !bfilter_idem. auto.
  - split; [discriminate|]. auto.
  - split; [discriminate|]. auto.
Qed.

Lemma deleteEntry_follows_remote_outcome_witness :
  let w := Sample.world_with [Sample.entry_mine; Sample.entry_theirs] in
  let st := Sample.loaded [Sample.entry_mine] in
  exists w1 st1,
    Entries.deleteEntry Sample.env (Some "u1"%string) "e1" w st = (true, w1, st1)
    /\ Sample.entry_theirs ∈ tbl_entries w1
    /\ (Sample.entry_mine ∉ tbl_entries w1)
    /\ (Sample.entry_mine ∉ Entries.entries st1).
Proof.
  intros w st.
  pose proof (deleteEntry_follows_remote_outcome Sample.env "u1" "e1" w st) as H.
  destruct (Entries.deleteEntry Sample.env (Some "u1"%string) "e1" w st)
    as [[ok w1] st1] eqn:E.
  destruct H as [H _]. destruct (H eq_refl) as (-> & Ht & Hs & _).
  exists w1, st1. split; [reflexivity|].
  split.
  { apply Ht. split; [right; left|]. intros [_ Hu]. discriminate Hu. }
  split.
  { intros Hin. apply Ht in Hin. destruct Hin as [_ Hn]. apply Hn. split; reflexivity. }
  intros Hin. apply Hs in Hin. destruct Hin as [_ Hn]. apply Hn. reflexivity.
Defined.

(** ** Storage paths *)

Lemma lastIndexOf_ge (c : ascii) (s : string) : -1 <= Js.lastIndexOf c s.
Proof.
  induction s as [|a s IH]; cbn; [lia|].
  destruct (0 <=? Js.lastIndexOf c s) eqn:E; [apply Z.leb_le in E; lia|].
  destruct (Ascii.eqb a c); lia.
Qed.

(** A name with a dot splits at its last dot, and [substring] from there is
    the dot with what follows. *)
Lemma lastIndexOf_split (c : ascii) (s : string) :
  0 <= Js.lastIndexOf c s ->
  exists stem ext,
    s = stem +:+ String c ext
    /\ Js.lastIndexOf c ext = -1
    /\ Js.substring (Js.lastIndexOf c s) s = String c ext.
Proof.
  induction s as [|a s IH]; cbn; [lia|].
  pose proof (lastIndexOf_ge c s) as Hge.
  destruct (0 <=? Js.lastIndexOf c s) eqn:E.
  - apply Z.leb_le in E. intros _.
    destruct (IH E) as (stem & ext & Hs & Hext & Hsub).
    exists (String a stem), ext.
    split; [change (String a s = String a (stem +:+ String c ext)); f_equal; exact Hs|].
    split; [exact Hext|].
    unfold Js.substring in *.
    replace (Z.to_nat (Z.max 0 (Js.lastIndexOf c s + 1)))
      with (S (Z.to_nat (Z.max 0 (Js.lastIndexOf c s)))) by lia.
    exact Hsub.
  - apply Z.leb_gt in E. destruct (Ascii.eqb_spec a c) as [->|Hne]; [|lia].
    intros _. exists EmptyString, s. cbn. repeat split. lia.
Qed.

Lemma append_inv_head (a x y : string) : a +:+ x = a +:+ y -> x = y.
Proof. induction a as [|c a IH]; cbn; [auto|]. intros [= H]. auto. Qed.

Lemma list_ascii_of_string_app (x y : string) :
  list_ascii_of_string (x +:+ y) = list_ascii_of_string x ++ list_ascii_of_string y.
Proof.
  induction x as [|c x IH]; [reflexivity|].
  change (c :: list_ascii_of_string (x +:+ y)
          = c :: (list_ascii_of_string x ++ list_ascii_of_string y)).
  f_equal. exact IH.
Qed.

Lemma append_inv_tail (a x y : string) : x +:+ a = y +:+ a -> x = y.
Proof.
  intros H. apply (f_equal list_ascii_of_string) in H.
  rewrite !list_ascii_of_string_app in H. apply app_inv_tail in H.
  apply (f_equal string_of_list_ascii) in H.
  now rewrite !string_of_list_ascii_of_string in H.
Qed.

(** Two texts free of a separator, each followed by it, split the same way. *)
Lemma split_at_first (c : ascii) (a b x y : string) :
  has_char c a = false -> has_char c b = false ->
  a +:+ String c x = b +:+ String c y -> a = b /\ x = y.
Proof.
  revert b. induction a as [|ca a IH]; intros [|cb b]; cbn.
  - intros _ _ [= ->]. auto.
  - intros _ Hb [= <- _]. rewrite Ascii.eqb_refl in Hb. discriminate.
  - intros Ha _ [= -> _]. rewrite Ascii.eqb_refl in Ha. discriminate.
  - intros Ha Hb [= -> H]. apply orb_false_iff in Ha, Hb.
    destruct (IH b (proj2 Ha) (proj2 Hb) H) as [-> ->]. auto.
Qed.

Lemma string_of_uint_no_dash (d : Decimal.uint) :
  has_char "-" (NilEmpty.string_of_uint d) = false.
Proof. induction d; cbn; auto. Qed.

Lemma Number_toString_no_dash (n : Z) :
  0 <= n -> has_char "-" (Js.Number_toString n) = false.
Proof.
  intros Hn. unfold Js.Number_toString. destruct n as [|p|p]; [reflexivity| |lia].
  cbn. unfold NilZero.string_of_uint.
  destruct (Pos.to_uint p) eqn:E; try (rewrite <- E; apply string_of_uint_no_dash).
  reflexivity.
Qed.

Lemma Number_toString_inj (n m : Z) :
  0 <= n -> 0 <= m -> Js.Number_toString n = Js.Number_toString m -> n = m.
Proof.
  intros Hn Hm H. unfold Js.Number_toString in H.
  apply DecimalZ.to_int_inj.
  assert (Hnil : forall z, 0 <= z -> exists d, Z.to_int z = Decimal.Pos d /\ d <> Decimal.Nil).
  { intros [|p|p] Hz; [eexists; split; [reflexivity|discriminate]| |lia].
    eexists; split; [reflexivity|]. apply DecimalPos.Unsigned.to_uint_nonnil. }
  destruct (Hnil n Hn) as (dn & En & Hdn), (Hnil m Hm) as (dm & Em & Hdm).
  rewrite En, Em in *. cbn in H. f_equal.
  apply NilZero.usu in Hdn, Hdm. rewrite H in Hdn. congruence.
Qed.

Example generateStoragePath_sample :
  fst (MediaUpload.generateStoragePath Sample.env "beach.png" "u1" Sample.empty_world)
  = "u1/1735214400000-k3j9x1.png"%string.
Proof. vm_compute. reflexivity. Qed.

(** For a name without a dot, [lastIndexOf] is -1, [substring(-1)] is the
    whole name, and the whole name is appended where the extension goes. *)
Example generateStoragePath_dotless :
  fst (MediaUpload.generateStoragePath Sample.env "README" "u1" Sample.empty_world)
  = "u1/1735214400000-k3j9x1README"%string.
Proof. vm_compute. reflexivity. Qed.

(** C9, as stated, fails. Two uploads of the same file name by the same user
    that read the same clock value and draw the same random token get the
    same storage path: the path alone does not exclude a collision. *)
Lemma generateStoragePath_collision :
  let '(path1, w1) :=
    MediaUpload.generateStoragePath Sample.env_frozen "beach.png" "u1" Sample.empty_world in
  let '(path2, _) :=
    MediaUpload.generateStoragePath Sample.env_frozen "beach.png" "u1" w1 in
  tick w1 <> tick Sample.empty_world /\ path1 = path2.
Proof. vm_compute. split; [discriminate|reflexivity]. Qed.

(** C9, amended. For a file name that contains a dot, the generated path
    is [{userId}/{timestamp}-{randomToken}{extension}]: the owner's id, the
    clock reading in decimal, the random token, and the part of the file name
    from its last dot on. Two paths generated for the same user and the same
    file name are equal only if both the clock reading and the random token
    are equal; uploads that differ in either never share a path. *)
Theorem generateStoragePath_form
    (env env' : Env) (fileName userId : string) (w w' : World) :
  0 <= Js.lastIndexOf "." fileName ->
  0 <= Date_now env (tick w) ->
  0 <= Date_now env' (tick w') ->
  (exists stem ext,
      fileName = stem +:+ "." +:+ ext
      /\ Js.lastIndexOf "." ext = -1
      /\ fst (MediaUpload.generateStoragePath env fileName userId w)
         = userId +:+ "/" +:+ Js.Number_toString (Date_now env (tick w))
             +:+ "-" +:+ Math_random36 env (S (tick w)) +:+ "." +:+ ext)
  /\ (fst (MediaUpload.generateStoragePath env fileName userId w)
      = fst (MediaUpload.generateStoragePath env' fileName userId w')
      <-> Date_now env (tick w) = Date_now env' (tick w')
          /\ Math_random36 env (S (tick w)) = Math_random36 env' (S (tick w'))).
Proof.
  intros Hdot Hn Hn'. unfold MediaUpload.generateStoragePath. cbn [fst]. split.
  - destruct (lastIndexOf_split "." fileName Hdot) as (stem & ext & Hs & He & Hsub).
    exists stem, ext. split; [exact Hs|]. split; [exact He|].
    rewrite Hsub. reflexivity.
  - split.
    + intros H. apply append_inv_head in H.
      change ("/" +:+ ?x)%string with (String "/" x) in H. injection H as H.
      change ("-" +:+ ?x)%string with (String "-" x) in H.
      apply split_at_first in H; try (apply Number_toString_no_dash; assumption).
      destruct H as [Hts Hr]. apply append_inv_tail in Hr.
      apply Number_toString_inj in Hts; auto.
    + intros [-> ->]. reflexivity.
Qed.

Lemma generateStoragePath_form_witness :
  fst (MediaUpload.generateStoragePath Sample.env "beach.png" "u1" Sample.empty_world)
  <> fst (MediaUpload.generateStoragePath Sample.env "beach.png" "u1"
            (bump (bump Sample.empty_world))).
Proof.
  intros H.
  apply (generateStoragePath_form Sample.env Sample.env "beach.png" "u1"
           Sample.empty_world (bump (bump Sample.empty_world))) in H.
  - destruct H as [H _]. vm_compute in H. discriminate H.
  - vm_compute. discriminate.
  - vm_compute. discriminate.
  - vm_compute. discriminate.
Defined.

(** ** Uploading a batch *)

Section upload.
Import MediaUpload.
Variables (env : Env) (userId : string) (entryId : option string).

Lemma uploadLoop_app (pre post : list Js.File) (s : Loop) :
  uploadLoop env userId entryId (pre ++ post) s
  = uploadLoop env userId entryId post (uploadLoop env userId entryId pre s).
Proof. apply fold_left_app. Qed.

Lemma uploadLoop_cons (file : Js.File) (post : list Js.File) (s : Loop) :
  uploadLoop env userId entryId (file :: post) s
  = uploadLoop env userId entryId post (processFile env userId entryId s file).
Proof. reflexivity. Qed.

(** A refused file changes the progress entries and nothing else. *)
Lemma processFile_invalid (s : Loop) (file : Js.File) :
  isValid (validateFile file) = false ->
  processFile env userId entryId s file
  = {| world := world s;
       hook := updateProgress (Js.name file) 0 true (error (validateFile file)) (hook s);
       uploadedMedia := uploadedMedia s |}.
Proof. intros H. unfold processFile. rewrite H. reflexivity. Qed.

(** The backend and the records after a file do not depend on the progress
    entries before it. *)
Lemma processFile_hook_irrelevant (s t : Loop) (file : Js.File) :
  world s = world t -> uploadedMedia s = uploadedMedia t ->
  world (processFile env userId entryId s file)
  = world (processFile env userId entryId t file)
  /\ uploadedMedia (processFile env userId entryId s file)
     = uploadedMedia (processFile env userId entryId t file).
Proof.
  intros Hw Hu. unfold processFile. rewrite <- Hw, <- Hu.
  destruct (negb (isValid (validateFile file))); [auto|].
  destruct (generateStoragePath env (Js.name file) userId (world s)) as [path w1].
  destruct (storage_upload env path file w1) as [[p| |] w2]; cbn; auto.
  destruct (media_insert env _ w2) as [[m| |] w3]; cbn; auto.
  destruct (storage_remove env [p] w3) as [[| |] w4]; cbn; auto.
Qed.

Lemma uploadLoop_hook_irrelevant (files : list Js.File) (s t : Loop) :
  world s = world t -> uploadedMedia s = uploadedMedia t ->
  world (uploadLoop env userId entryId files s)
  = world (uploadLoop env userId entryId files t)
  /\ uploadedMedia (uploadLoop env userId entryId files s)
     = uploadedMedia (uploadLoop env userId entryId files t).
Proof.
  revert s t. induction files as [|f files IH]; intros s t Hw Hu; [auto|].
  rewrite !uploadLoop_cons.
  destruct (processFile_hook_irrelevant s t f Hw Hu) as [Hw' Hu']. auto.
Qed.

(** A file adds at most its own record to the result. *)
Lemma processFile_uploaded (s : Loop) (file : Js.File) :
  exists extra,
    uploadedMedia (processFile env userId entryId s file) = uploadedMedia s ++ extra
    /\ Forall (record_of file) extra.
Proof.
  unfold processFile.
  destruct (negb (isValid (validateFile file))); [exists []; cbn; rewrite app_nil_r; auto|].
  destruct (generateStoragePath env (Js.name file) userId (world s)) as [path w1].
  destruct (storage_upload env path file w1) as [[p| |] w2];
    try (exists []; cbn; rewrite app_nil_r; auto; fail).
  unfold media_insert, remote.
  destruct (fault env (tick w2)); cbn;
    try (exists []; cbn; rewrite app_nil_r; auto; fail).
  - eexists [_]. split; [reflexivity|]. constructor; [|constructor].
    repeat split.
  - destruct (storage_remove env [p] _) as [[| |] w4]; cbn;
      exists []; rewrite app_nil_r; auto.
Qed.

Lemma uploadLoop_uploaded (files : list Js.File) (s : Loop) :
  exists extra,
    uploadedMedia (uploadLoop env userId entryId files s) = uploadedMedia s ++ extra
    /\ Forall (fun m => exists f, f ∈ files /\ record_of f m) extra.
Proof.
  revert s. induction files as [|f files IH]; intros s.
  - exists []. cbn. rewrite app_nil_r. auto.
  - rewrite uploadLoop_cons.
    destruct (IH (processFile env userId entryId s f)) as (ex2 & E2 & H2).
    destruct (processFile_uploaded s f) as (ex1 & E1 & H1).
    exists (ex1 ++ ex2). rewrite E2, E1, app_assoc. split; [reflexivity|].
    apply Forall_app. split.
    + eapply Forall_impl; [exact H1|]. intros m Hm. exists f. split; [left|exact Hm].
    + eapply Forall_impl; [exact H2|]. intros m (f' & Hin & Hm). exists f'.
      split; [right; exact Hin|exact Hm].
Qed.

(** The file whose upload and insert are both served: blob stored, row
    inserted, record appended. *)
Lemma processFile_stored (s : Loop) (file : Js.File) :
  let w := world s in
  let path := fst (generateStoragePath env (Js.name file) userId w) in
  let r := media_row env (insert_tick w) (mediaData userId entryId path file) in
  isValid (validateFile file) = true ->
  fault env (upload_tick w) = NoFault ->
  bucket w !! path = None ->
  fault env (insert_tick w) = NoFault ->
  let s' := processFile env userId entryId s file in
  uploadedMedia s' = uploadedMedia s ++ [r]
  /\ calls (world s')
     = calls w ++ [StorageUpload path file;
                   MediaInsertRow (mediaData userId entryId path file)]
  /\ tbl_media (world s') = tbl_media w ++ [r]
  /\ tbl_entries (world s') = tbl_entries w
  /\ bucket (world s') = <[path := file]> (bucket w)
  /\ tick (world s') = S (insert_tick w).
Proof.
  intros w path r Hv Hu Hfree Hi. unfold processFile. rewrite Hv. cbn [negb].
  unfold generateStoragePath. fold w.
  cbv beta iota zeta.
  unfold storage_upload, remote. cbn [tick bump]. fold (upload_tick w). rewrite Hu.
  cbn [bucket received bump].
  unfold path, generateStoragePath in Hfree. cbn [fst] in Hfree. rewrite Hfree.
  unfold media_insert, remote. cbn [tick set_bucket received bump].
  fold (insert_tick w). rewrite Hi. cbn.
  repeat split. rewrite <- List.app_assoc. reflexivity.
Qed.

(** The file whose upload is served and whose insert answers with an error:
    the removal of the blob is the next call, and no record is appended. *)
Lemma processFile_insert_failed (s : Loop) (file : Js.File) (message : string) :
  let w := world s in
  let path := fst (generateStoragePath env (Js.name file) userId w) in
  isValid (validateFile file) = true ->
  fault env (upload_tick w) = NoFault ->
  bucket w !! path = None ->
  fault env (insert_tick w) = FaultError message ->
  let s' := processFile env userId entryId s file in
  uploadedMedia s' = uploadedMedia s
  /\ calls (world s')
     = calls w ++ [StorageUpload path file;
                   MediaInsertRow (mediaData userId entryId path file);
                   StorageRemove [path]]
  /\ tbl_media (world s') = tbl_media w
  /\ tbl_entries (world s') = tbl_entries w
  /\ (fault env (remove_tick w) = NoFault ->
      bucket (world s') !! path = None /\ bucket (world s') = bucket w)
  /\ tick (world s') = S (remove_tick w).
Proof.
  intros w path Hv Hu Hfree Hi. unfold processFile. rewrite Hv. cbn [negb].
  unfold generateStoragePath. fold w.
  cbv beta iota zeta.
  unfold storage_upload, remote. cbn [tick bump]. fold (upload_tick w). rewrite Hu.
  cbn [bucket received bump].
  unfold path, generateStoragePath in Hfree. cbn [fst] in Hfree. rewrite Hfree.
  unfold media_insert, remote. cbn [tick set_bucket received bump].
  fold (insert_tick w). rewrite Hi.
  unfold storage_remove, remote, remove_tick. cbn [tick received set_bucket bump].
  assert (Hcalls : forall (l : list Call) a b c, ((l ++ [a]) ++ [b]) ++ [c] = l ++ [a; b; c])
    by (intros; rewrite <- !List.app_assoc; reflexivity).
  destruct (fault env (S (S (S (S (tick w)))))) eqn:Hr; cbn;
    (repeat split; try discriminate; try apply Hcalls).
  - apply lookup_delete_eq.
  - apply delete_insert_id. exact Hfree.
Qed.

End upload.

Section batches.
Import MediaUpload.

(** C1, as stated, fails. The blob write of the one file of the batch is
    served and its insert fails. When the insert raises instead of answering,
    the handler of unexpected errors takes over: two calls are made, none of
    them a removal, and the blob stays. When the insert answers with an error
    and the removal answers with an error too, the removal was issued but the
    blob stays, as nothing checks its outcome. *)
Lemma uploadFiles_failed_insert_keeps_blob :
  let path := "u1/1735214400000-k3j9x1.png"%string in
  let row := mediaData "u1" None path Sample.photo in
  (let '(result, w', _) :=
     uploadFiles (Sample.raising_at 3) (Some "u1"%string) [Sample.photo] None
       Sample.empty_world Sample.idle_upload in
   result = []
   /\ calls w' = [StorageUpload path Sample.photo; MediaInsertRow row]
   /\ bucket w' !! path = Some Sample.photo)
  /\ (let '(result, w', _) :=
        uploadFiles (Sample.failing_from 3) (Some "u1"%string) [Sample.photo] None
          Sample.empty_world Sample.idle_upload in
      result = []
      /\ calls w' = [StorageUpload path Sample.photo; MediaInsertRow row;
                     StorageRemove [path]]
      /\ bucket w' !! path = Some Sample.photo).
Proof. repeat split; vm_compute; reflexivity. Qed.

(** C1, amended. In any batch, take a file that passes validation, whose
    blob write is served at a free path, and whose insert into the media
    table answers with an error. The calls made for it are, in this order, the upload at
    the generated path, the insert, and the removal of that same path; the
    removal comes before any call for the next file, and once it is served
    the blob is gone. The media table is unchanged, the file adds no record,
    and every record returned beyond those of the earlier files comes from a
    later file of the batch. *)
Theorem uploadFiles_compensates_failed_insert
    (env : Env) (userId : string) (entryId : option string)
    (w : World) (st : State) (pre post : list Js.File) (file : Js.File)
    (message : string) :
  let s := uploadLoop env userId entryId pre (startLoop w st) in
  let path := fst (generateStoragePath env (Js.name file) userId (world s)) in
  isValid (validateFile file) = true ->
  fault env (upload_tick (world s)) = NoFault ->
  bucket (world s) !! path = None ->
  fault env (insert_tick (world s)) = FaultError message ->
  let s' := processFile env userId entryId s file in
  let sf := uploadLoop env userId entryId post s' in
  calls (world s')
  = calls (world s) ++ [StorageUpload path file;
                        MediaInsertRow (mediaData userId entryId path file);
                        StorageRemove [path]]
  /\ (fault env (remove_tick (world s)) = NoFault -> bucket (world s') !! path = None)
  /\ tbl_media (world s') = tbl_media (world s)
  /\ uploadedMedia s' = uploadedMedia s
  /\ uploadFiles env (Some userId) (pre ++ file :: post) entryId w st
     = (uploadedMedia sf, world sf, setUploading false (hook sf))
  /\ exists later,
       uploadedMedia sf = uploadedMedia s ++ later
       /\ Forall (fun m => exists f, f ∈ post /\ record_of f m) later.
Proof.
  intros s path Hv Hu Hfree Hi s' sf.
  destruct (processFile_insert_failed env userId entryId s file message Hv Hu Hfree Hi)
    as (Hup & Hcalls & Hmedia & _ & Hgone & _).
  fold s' in Hup, Hcalls, Hmedia, Hgone.
  split; [exact Hcalls|].
  split; [intros Hr; apply Hgone, Hr|].
  split; [exact Hmedia|].
  split; [exact Hup|].
  split.
  - unfold uploadFiles. rewrite uploadLoop_app, uploadLoop_cons. reflexivity.
  - destruct (uploadLoop_uploaded env userId entryId post s') as (later & E & Hl).
    exists later. fold sf in E. rewrite E, Hup. auto.
Qed.

Lemma uploadFiles_compensates_failed_insert_witness :
  let env := Sample.failing_at 3 in
  let '(result, w', _) :=
    uploadFiles env (Some "u1"%string) [Sample.photo; Sample.song] None
      Sample.empty_world Sample.idle_upload in
  calls w' !! 2%nat = Some (StorageRemove ["u1/1735214400000-k3j9x1.png"%string])
  /\ bucket w' !! "u1/1735214400000-k3j9x1.png"%string = None
  /\ Forall (record_of Sample.song) result.
Proof.
  intros env.
  pose proof (uploadFiles_compensates_failed_insert env "u1" None Sample.empty_world
                Sample.idle_upload [] [Sample.song] Sample.photo "connection reset"
                eq_refl eq_refl eq_refl eq_refl) as H.
  cbv zeta in H. destruct H as (_ & _ & _ & _ & E0 & later & E & Hl).
  cbn [app] in E0. rewrite E0.
  split; [vm_compute; reflexivity|].
  split; [vm_compute; reflexivity|].
  rewrite E. cbn [app uploadLoop fold_left startLoop uploadedMedia].
  eapply Forall_impl; [exact Hl|].
  intros m (f & Hf & Hm). apply list_elem_of_singleton in Hf. subst f. exact Hm.
Defined.

(** Validation reads the declared type and the size only, so a record
    that carries the metadata of an accepted file is not the record of a
    refused one. *)
Lemma refused_has_no_record (refused accepted : Js.File) (m : Media.t) :
  isValid (validateFile refused) = false ->
  isValid (validateFile accepted) = true ->
  record_of refused m -> ~ record_of accepted m.
Proof.
  intros Hr Ha (_ & Hs & Ht) (_ & Hs' & Ht').
  rewrite Hs in Hs'. rewrite Ht in Ht'. injection Hs' as Hs'. injection Ht' as Ht'.
  unfold validateFile in Hr, Ha. rewrite Hs', Ht' in Hr. congruence.
Qed.

(** C5. In a batch of three files whose second file fails validation, the
    refused file has no effect on the backend or on the result: whatever the
    backend answers, the records returned and the state of the backend are
    those of the batch of the first and third file alone. When the backend
    serves every call and the two generated paths are free and distinct, the
    result is the record of the first file followed by the record of the
    third, neither of which is a record of the refused file; the calls made
    are the upload and the insert of the first file, then those of the
    third; both blobs are stored and both rows inserted. *)
Theorem uploadFiles_batch_independence
    (env : Env) (userId : string) (entryId : option string)
    (w : World) (st : State) (f1 f2 f3 : Js.File) :
  isValid (validateFile f1) = true ->
  isValid (validateFile f2) = false ->
  isValid (validateFile f3) = true ->
  let '(result, w', _) := uploadFiles env (Some userId) [f1; f2; f3] entryId w st in
  (let '(result0, w0, _) := uploadFiles env (Some userId) [f1; f3] entryId w st in
   result = result0 /\ w' = w0)
  /\ ((forall n, fault env n = NoFault) ->
      let w1 := world (processFile env userId entryId (startLoop w st) f1) in
      let p1 := fst (generateStoragePath env (Js.name f1) userId w) in
      let p3 := fst (generateStoragePath env (Js.name f3) userId w1) in
      let r1 := media_row env (insert_tick w) (mediaData userId entryId p1 f1) in
      let r3 := media_row env (insert_tick w1) (mediaData userId entryId p3 f3) in
      bucket w !! p1 = None -> bucket w !! p3 = None -> p1 <> p3 ->
      result = [r1; r3]
      /\ record_of f1 r1 /\ record_of f3 r3
      /\ ~ record_of f2 r1 /\ ~ record_of f2 r3
      /\ calls w' = calls w ++ [StorageUpload p1 f1;
                                MediaInsertRow (mediaData userId entryId p1 f1);
                                StorageUpload p3 f3;
                                MediaInsertRow (mediaData userId entryId p3 f3)]
      /\ tbl_media w' = tbl_media w ++ [r1; r3]
      /\ bucket w' = <[p3 := f3]> (<[p1 := f1]> (bucket w))).
Proof.
  intros Hv1 Hv2 Hv3. unfold uploadFiles, uploadLoop. cbn [fold_left].
  set (s0 := startLoop w st).
  set (s1 := processFile env userId entryId s0 f1).
  rewrite (processFile_invalid env userId entryId s1 f2 Hv2).
  set (s2 := {| world := world s1; hook := _; uploadedMedia := uploadedMedia s1 |}).
  destruct (processFile_hook_irrelevant env userId entryId s2 s1 f3 eq_refl eq_refl)
    as [Hw Hu].
  split; [auto|].
  intros Hok Hfree1 Hfree3 Hne.
  destruct (processFile_stored env userId entryId s0 f1 Hv1 (Hok _) Hfree1 (Hok _))
    as (Hu1 & Hc1 & Hm1 & _ & Hb1 & _).
  fold s1 in Hu1, Hc1, Hm1, Hb1.
  change (world s0) with w in Hu1, Hc1, Hm1, Hb1.
  change (uploadedMedia s0) with (@nil Media.t) in Hu1.
  set (p1 := fst (generateStoragePath env (Js.name f1) userId w)) in *.
  set (p3 := fst (generateStoragePath env (Js.name f3) userId (world s1))) in *.
  assert (Hfree3' : bucket (world s1) !! p3 = None).
  { rewrite Hb1, lookup_insert_ne; [exact Hfree3|exact Hne]. }
  destruct (processFile_stored env userId entryId s1 f3 Hv3 (Hok _) Hfree3' (Hok _))
    as (Hu3 & Hc3 & Hm3 & _ & Hb3 & _).
  fold p3 in Hu3, Hc3, Hm3, Hb3.
  rewrite Hw, Hu, Hu3, Hc3, Hm3, Hb3, Hu1, Hc1, Hm1, Hb1.
  rewrite <- !List.app_assoc.
  split; [reflexivity|]. split; [repeat split|]. split; [repeat split|].
  split; [intros Hrec; apply (refused_has_no_record f2 f1 _ Hv2 Hv1 Hrec); repeat split|].
  split; [intros Hrec; apply (refused_has_no_record f2 f3 _ Hv2 Hv3 Hrec); repeat split|].
  repeat split.
Qed.

Lemma uploadFiles_batch_independence_witness :
  let '(result, w', _) :=
    uploadFiles Sample.env (Some "u1"%string)
      [Sample.photo; Sample.program; Sample.song] (Some "e1"%string)
      Sample.empty_world Sample.idle_upload in
  map Media.file_name result = [Some "beach.png"; Some "tune.mp3"]%string
  /\ length (calls w') = 4%nat
  /\ bucket w' !! "u1/1735214400000-k3j9x1.png"%string = Some Sample.photo
  /\ bucket w' !! "u1/1735214400004-k3j9x5.mp3"%string = Some Sample.song.
Proof.
  pose proof (uploadFiles_batch_independence Sample.env "u1" (Some "e1"%string)
                Sample.empty_world Sample.idle_upload
                Sample.photo Sample.program Sample.song
                eq_refl eq_refl eq_refl) as H.
  destruct (uploadFiles Sample.env (Some "u1"%string)
              [Sample.photo; Sample.program; Sample.song] (Some "e1"%string)
              Sample.empty_world Sample.idle_upload) as [[result w'] st'].
  destruct H as [_ H].
  specialize (H (fun _ => eq_refl)). cbv zeta in H.
  destruct H as (-> & _ & _ & _ & _ & -> & _ & ->).
  - vm_compute. reflexivity.
  - vm_compute. reflexivity.
  - vm_compute. discriminate.
  - split; [vm_compute; reflexivity|].
    split; [vm_compute; reflexivity|].
    split; vm_compute; reflexivity.
Defined.

End batches.

(** ** Dates *)

Section dates.
Import Date.

Lemma TimeClip_Some (t u : Z) : TimeClip t = Some u -> u = t.
Proof. unfold TimeClip. destruct (_ <=? _); intros [=]; auto. Qed.

Lemma setHours_start (tza : Z -> bool -> Z) (t u : Z) :
  setHours tza t 0 0 0 0 = Some u ->
  u = localDay tza t * msPerDay - tza (localDay tza t * msPerDay) false.
Proof.
  unfold setHours, UTC, MakeTime. intros H. apply TimeClip_Some in H. subst u.
  change (((0 * 60 + 0) * 60 + 0) * 1000 + 0) with 0. rewrite Z.add_0_r.
  reflexivity.
Qed.

Lemma setHours_end (tza : Z -> bool -> Z) (t u : Z) :
  setHours tza t 23 59 59 999 = Some u ->
  u = localDay tza t * msPerDay + 86399999
      - tza (localDay tza t * msPerDay + 86399999) false.
Proof.
  unfold setHours, UTC, MakeTime. intros H. apply TimeClip_Some in H. subst u.
  change (((23 * 60 + 59) * 60 + 59) * 1000 + 999) with 86399999.
  reflexivity.
Qed.

(** Where the offset of the zone does not change around a day, an instant is
    on that local day exactly when it lies between the local midnight of the
    day and the last millisecond before the next. *)
Lemma steady_same_local_day (tza : Z -> bool -> Z) (c day lo hi x : Z) :
  lo = day * msPerDay - tza (day * msPerDay) false ->
  hi = day * msPerDay + 86399999 - tza (day * msPerDay + 86399999) false ->
  steady tza c (lo - 2 * msPerDay) (hi + 2 * msPerDay) ->
  lo <= x <= hi <-> localDay tza x = day.
Proof.
  intros Hlo Hhi [Hb Hc]. unfold localDay, LocalTime.
  pose proof (Hb (day * msPerDay) false) as B1.
  pose proof (Hb (day * msPerDay + 86399999) false) as B2.
  pose proof (Hb x true) as B3.
  assert (C1 : tza (day * msPerDay) false = c)
    by (apply Hc; unfold msPerDay in *; lia).
  assert (C2 : tza (day * msPerDay + 86399999) false = c)
    by (apply Hc; unfold msPerDay in *; lia).
  rewrite C1 in *. rewrite C2 in *.
  destruct (Z_le_dec (lo - 2 * msPerDay) x) as [L|L];
    [destruct (Z_le_dec x (hi + 2 * msPerDay)) as [U|U]|].
  - assert (C3 : tza x true = c) by (apply Hc; lia).
    rewrite C3. unfold msPerDay in *. split; intros H; zdiv.
  - unfold msPerDay in *. split; intros H; zdiv.
  - unfold msPerDay in *. split; intros H; zdiv.
Qed.

(** A date-only string is read as the UTC midnight of its day. *)
Lemma parse_date_only (tza : Z -> bool -> Z) (other : string -> option Z)
    (date : string) (days : Z) :
  date_only date = Some days -> parse tza other date = TimeClip (days * msPerDay).
Proof. intros H. unfold parse, read. rewrite H. reflexivity. Qed.

End dates.

(** ** Entries of a day *)

Lemma bfilter_bfilter {A} (p q : A -> bool) (l : list A) :
  List.filter p (List.filter q l) = List.filter (fun x => q x && p x) l.
Proof.
  induction l as [|x l IH]; [reflexivity|]. cbn.
  destruct (q x); cbn; [destruct (p x)|]; now rewrite IH.
Qed.

(** What the query of [getEntriesByDate] selects, for a date whose two bounds
    are valid and a backend that answers and reads the bounds as the instants
    they denote. *)
Lemma getEntriesByDate_selects (env : Env) (userId date : string) (lo hi : Z) (w : World) :
  Entries.dayBound env date 0 0 0 0 = Some lo ->
  Entries.dayBound env date 23 59 59 999 = Some hi ->
  fault env (tick w) = NoFault ->
  db_instant env (Date.toISOString lo) = lo ->
  db_instant env (Date.toISOString hi) = hi ->
  fst (Entries.getEntriesByDate env (Some userId) date w)
  = merge_sort (newer_first env)
      (List.filter (dated_within env lo hi userId) (tbl_entries w)).
Proof.
  intros Hlo Hhi Hf Rlo Rhi. unfold Entries.getEntriesByDate. rewrite Hlo, Hhi.
  unfold entries_select. rewrite remote_healthy by exact Hf.
  cbn [fst]. unfold select_rows.
  cbn [q_or q_limit q_user q_gte q_lte opt_filter opt_limit fmap option_fmap option_map].
  rewrite !bfilter_bfilter. f_equal.
  apply filter_ext. intros e. unfold dated_within, at_or_after, at_or_before.
  rewrite Rlo, Rhi. apply andb_assoc.
Qed.

Example getEntriesByDate_utc :
  fst (Entries.getEntriesByDate Sample.env (Some "u1"%string) "2024-12-26"
         Sample.boundary_world)
  = [Sample.last_instant; Sample.early_morning].
Proof. vm_compute. reflexivity. Qed.

(** The day may be given in any form of the date-time string format: a
    date-time without milliseconds, with an offset or without one. *)
Example getEntriesByDate_other_forms :
  map (fun date =>
         fst (Entries.getEntriesByDate Sample.env (Some "u1"%string) date
                Sample.boundary_world))
      ["2024-12-26T10:00:00Z"; "2024-12-26T23:30:00-02:00"; "2024-12-26T10:00"]%string
  = [[Sample.last_instant; Sample.early_morning]; [Sample.next_midnight];
     [Sample.last_instant; Sample.early_morning]].
Proof. vm_compute. reflexivity. Qed.

(** Five hours west of UTC the date-only string, read as UTC midnight, falls
    on the evening of the day before, and the entries of that day come back:
    the entry written at 10:00 local time on the 26th is left out and the
    one written at 10:00 on the 25th is returned. *)
Example getEntriesByDate_west :
  fst (Entries.getEntriesByDate Sample.env_west (Some "u1"%string) "2024-12-26"
         (Sample.world_with [Sample.afternoon; Sample.day_before]))
  = [Sample.day_before].
Proof. vm_compute. reflexivity. Qed.

(** On the day the clocks go forward the local day has 23 hours: in the zone
    of Berlin the day 2024-03-31 ends at 21:59:59.999Z, and an entry dated
    22:30Z is not returned. *)
Example getEntriesByDate_short_day :
  Entries.dayBound Sample.env_berlin "2024-03-31" 0 0 0 0 = Some 1711839600000
  /\ Entries.dayBound Sample.env_berlin "2024-03-31" 23 59 59 999 = Some 1711922399999
  /\ fst (Entries.getEntriesByDate Sample.env_berlin (Some "u1"%string) "2024-03-31"
            (Sample.world_with [Sample.spring_noon; Sample.spring_late]))
     = [Sample.spring_noon].
Proof. repeat split; vm_compute; reflexivity. Qed.

(** C7, as stated, fails. One hour east of UTC the day queried for
    "2024-12-26" runs from 2024-12-25T23:00:00.000Z to
    2024-12-26T22:59:59.999Z: the entry dated 2024-12-26T23:59:59.999Z, which
    the claim includes, is not returned. *)
Lemma getEntriesByDate_boundary_moves_with_zone :
  let result :=
    fst (Entries.getEntriesByDate Sample.env_east (Some "u1"%string) "2024-12-26"
           Sample.boundary_world) in
  Sample.last_instant ∈ tbl_entries Sample.boundary_world
  /\ Entry.user_id Sample.last_instant = "u1"%string
  /\ result = [Sample.early_morning]
  /\ Sample.last_instant ∉ result.
Proof.
  split; [repeat constructor|]. split; [reflexivity|].
  assert (E : fst (Entries.getEntriesByDate Sample.env_east (Some "u1"%string)
                     "2024-12-26" Sample.boundary_world) = [Sample.early_morning])
    by (vm_compute; reflexivity).
  cbv zeta. rewrite E. split; [reflexivity|].
  intros H. apply list_elem_of_singleton in H. discriminate H.
Qed.

(** C7, amended. Let [date] denote the instant [t], let [lo] and [hi] be the
    valid dates [setHours(0, 0, 0, 0)] and [setHours(23, 59, 59, 999)] make
    of it, and let the backend answer and read the two bounds as the instants
    they denote. Then [lo] and [hi] are the local times 00:00:00.000 and
    23:59:59.999 of the local day on which [t] falls, each converted with the
    offset of the zone at that local time, and [getEntriesByDate] returns
    exactly the caller's entries dated from [lo] to [hi], both included,
    sorted descending by date. Where the offset of the zone does not change
    from two days before [lo] to two days after [hi], these are exactly the
    caller's entries dated on that local day. A date-only string denotes the
    UTC midnight of its day, so with a zone at or east of UTC the local day
    is the day written. *)
Theorem getEntriesByDate_local_day
    (env : Env) (userId date : string) (t lo hi : Z) (w : World) :
  Date.parse (LocalTZA env) (Date_parse_other env) date = Some t ->
  Date.setHours (LocalTZA env) t 0 0 0 0 = Some lo ->
  Date.setHours (LocalTZA env) t 23 59 59 999 = Some hi ->
  fault env (tick w) = NoFault ->
  db_instant env (Date.toISOString lo) = lo ->
  db_instant env (Date.toISOString hi) = hi ->
  let result := fst (Entries.getEntriesByDate env (Some userId) date w) in
  let day := Date.localDay (LocalTZA env) t in
  lo = day * Date.msPerDay - LocalTZA env (day * Date.msPerDay) false
  /\ hi = day * Date.msPerDay + 86399999
          - LocalTZA env (day * Date.msPerDay + 86399999) false
  /\ (forall e, e ∈ result <->
        e ∈ tbl_entries w /\ Entry.user_id e = userId /\ lo <= instant env e <= hi)
  /\ result ≡ₚ List.filter (dated_within env lo hi userId) (tbl_entries w)
  /\ StronglySorted (newer_first env) result
  /\ (forall c,
        steady (LocalTZA env) c (lo - 2 * Date.msPerDay) (hi + 2 * Date.msPerDay) ->
        forall e, e ∈ result <->
          e ∈ tbl_entries w /\ Entry.user_id e = userId
          /\ Date.localDay (LocalTZA env) (instant env e) = day)
  /\ (forall days,
        Date.date_only date = Some days ->
        0 <= LocalTZA env t true < Date.msPerDay ->
        day = days).
Proof.
  intros Hp Hlo Hhi Hf Rlo Rhi result day.
  pose proof (setHours_start _ _ _ Hlo) as Elo. fold day in Elo.
  pose proof (setHours_end _ _ _ Hhi) as Ehi. fold day in Ehi.
  assert (Hsel : result
                 = merge_sort (newer_first env)
                     (List.filter (dated_within env lo hi userId) (tbl_entries w))).
  { apply getEntriesByDate_selects; auto; unfold Entries.dayBound; rewrite Hp; assumption. }
  assert (Hperm : result ≡ₚ List.filter (dated_within env lo hi userId) (tbl_entries w)).
  { rewrite Hsel. apply merge_sort_Permutation. }
  assert (Hin : forall e, e ∈ result <->
                  e ∈ tbl_entries w /\ Entry.user_id e = userId
                  /\ lo <= instant env e <= hi).
  { intros e. rewrite Hperm, elem_of_bfilter. unfold dated_within.
    rewrite !andb_true_iff, String.eqb_eq, !Z.leb_le. tauto. }
  split; [exact Elo|]. split; [exact Ehi|]. split; [exact Hin|].
  split; [exact Hperm|]. split; [|split].
  - rewrite Hsel. apply StronglySorted_merge_sort; typeclasses eauto.
  - intros c Hc e. rewrite Hin.
    rewrite (steady_same_local_day (LocalTZA env) c day lo hi (instant env e) Elo Ehi Hc).
    reflexivity.
  - intros days Hd Hz. rewrite (parse_date_only _ _ _ _ Hd) in Hp.
    apply TimeClip_Some in Hp. subst t.
    unfold day, Date.localDay, Date.LocalTime, Date.msPerDay in *. zdiv.
Qed.

Lemma getEntriesByDate_local_day_witness :
  let result :=
    fst (Entries.getEntriesByDate Sample.env (Some "u1"%string) "2024-12-26"
           Sample.boundary_world) in
  Sample.last_instant ∈ result
  /\ (Sample.next_midnight ∉ result)
  /\ (Sample.foreign ∉ result)
  /\ StronglySorted (newer_first Sample.env) result.
Proof.
  intros result.
  destruct (getEntriesByDate_local_day Sample.env "u1" "2024-12-26" 1735171200000
              1735171200000 1735257599999 Sample.boundary_world)
    as (_ & _ & _ & _ & Hsorted & Hday & Hwritten).
  - vm_compute. reflexivity.
  - vm_compute. reflexivity.
  - vm_compute. reflexivity.
  - reflexivity.
  - vm_compute. reflexivity.
  - vm_compute. reflexivity.
  - fold result in Hday, Hsorted.
    assert (Hst : steady (LocalTZA Sample.env) 0
                    (1735171200000 - 2 * Date.msPerDay)
                    (1735257599999 + 2 * Date.msPerDay)).
    { split; intros x b; [|intros _]; vm_compute; [split; reflexivity|reflexivity]. }
    specialize (Hday 0 Hst).
    assert (Hd : Date.localDay (LocalTZA Sample.env) 1735171200000 = 20083)
      by (apply Hwritten; vm_compute; [reflexivity|split; [discriminate|reflexivity]]).
    rewrite Hd in Hday.
    split; [|split; [|split; [|exact Hsorted]]].
    + apply Hday. split; [repeat constructor|]. split; [reflexivity|].
      vm_compute. reflexivity.
    + intros H. apply Hday in H. destruct H as (_ & _ & H).
      vm_compute in H. discriminate H.
    + intros H. apply Hday in H. destruct H as (_ & Hu & _). discriminate Hu.
Defined.

(** * Further properties *)

Import Notions.

(** ** Progress entries *)

Section progress.
Import MediaUpload.

Lemma find_name_none (n : string) (l : list UploadProgress) :
  List.find (fun p => String.eqb (fileName p) n) l = None <-> n ∉ map fileName l.
Proof.
  induction l as [|q l IH]; cbn.
  - split; [intros _ H; inversion H|reflexivity].
  - destruct (String.eqb_spec (fileName q) n) as [E|E].
    + split; [discriminate|]. intros H. exfalso. apply H. rewrite E. left.
    + rewrite IH. rewrite not_elem_of_cons. split; [auto|intros [_ H]; exact H].
Qed.

Lemma updateProgress_spec
    (n : string) (p : Z) (c : bool) (e : option string) (st : State) :
  let st' := updateProgress n p c e st in
  progress_names st'
  = (if decide (n ∈ progress_names st) then progress_names st
     else progress_names st ++ [n])
  /\ (forall q, q ∈ uploadProgress st' -> fileName q = n ->
        progress q = p /\ isComplete q = c /\ p_error q = e)
  /\ (forall q, fileName q <> n ->
        (q ∈ uploadProgress st' <-> q ∈ uploadProgress st))
  /\ (NoDup (progress_names st) -> NoDup (progress_names st'))
  /\ uploading st' = uploading st.
Proof.
  unfold updateProgress, setUploadProgress, progress_names. cbn.
  set (l := uploadProgress st).
  destruct (List.find _ l) as [q0|] eqn:Hf.
  - assert (Hin : n ∈ map fileName l).
    { destruct (decide (n ∈ map fileName l)) as [H|H]; [exact H|].
      apply find_name_none in H. congruence. }
    assert (Hnames : map fileName
                       (map (fun q => if String.eqb (fileName q) n
                                      then {| fileName := fileName q; progress := p;
                                              isComplete := c; p_error := e |}
                                      else q) l) = map fileName l).
    { rewrite map_map. apply map_ext. intros q. now destruct (String.eqb _ _). }
    rewrite Hnames. rewrite decide_True by exact Hin.
    split; [reflexivity|]. split; [|split; [|split; [auto|reflexivity]]].
    + intros q Hq Hn. apply list_elem_of_fmap in Hq. destruct Hq as (q1 & -> & _).
      destruct (String.eqb (fileName q1) n) eqn:E; [cbn; auto|].
      apply String.eqb_neq in E. contradiction.
    + intros q Hn. split.
      * intros Hq. apply list_elem_of_fmap in Hq. destruct Hq as (q1 & -> & Hq1).
        destruct (String.eqb_spec (fileName q1) n) as [E|E]; [|exact Hq1].
        cbn in Hn. contradiction.
      * intros Hq. apply list_elem_of_fmap. exists q. split; [|exact Hq].
        apply String.eqb_neq in Hn. now rewrite Hn.
  - apply find_name_none in Hf. rewrite decide_False by exact Hf.
    rewrite map_app. cbn.
    split; [reflexivity|]. split; [|split; [|split; [|reflexivity]]].
    + intros q Hq Hn. apply elem_of_app in Hq. destruct Hq as [Hq|Hq].
      * exfalso. apply Hf. rewrite <- Hn. apply list_elem_of_fmap. eauto.
      * apply list_elem_of_singleton in Hq. subst q. auto.
    + intros q Hn. rewrite elem_of_app, list_elem_of_singleton. split; [|auto].
      intros [H| ->]; [exact H|]. cbn in Hn. contradiction.
    + intros Hnd. apply NoDup_app. split; [exact Hnd|]. split.
      * intros x Hx Hx'. apply list_elem_of_singleton in Hx'. subst x. contradiction.
      * apply NoDup_singleton.
Qed.

(** X1. One update of the progress of a file: the list keeps its order and
    gains the name at the end when it is new; the entries of that name carry
    the values given and the others are untouched; names stay distinct. *)
Theorem updateProgress_keyed_by_name
    (n : string) (p : Z) (c : bool) (e : option string) (st : State) :
  let st' := updateProgress n p c e st in
  progress_names st'
  = (if decide (n ∈ progress_names st) then progress_names st
     else progress_names st ++ [n])
  /\ (forall q, q ∈ uploadProgress st' -> fileName q = n ->
        progress q = p /\ isComplete q = c /\ p_error q = e)
  /\ (forall q, fileName q <> n ->
        (q ∈ uploadProgress st' <-> q ∈ uploadProgress st))
  /\ (NoDup (progress_names st) -> NoDup (progress_names st'))
  /\ uploading st' = uploading st.
Proof. exact (updateProgress_spec n p c e st). Qed.

End progress.

Section progress2.
Import MediaUpload.

Lemma updateProgress_names_iff (n : string) (p : Z) (c : bool) (e : option string)
    (st : State) (x : string) :
  x ∈ progress_names (updateProgress n p c e st) <-> x ∈ progress_names st \/ x = n.
Proof.
  destruct (updateProgress_spec n p c e st) as (Hn & _). cbv zeta in Hn. rewrite Hn.
  destruct (decide (n ∈ progress_names st)) as [H|H].
  - split; [auto|]. intros [Hx| ->]; assumption.
  - rewrite elem_of_app, list_elem_of_singleton. reflexivity.
Qed.

Lemma updateProgress_others_terminal (n : string) (p : Z) (c : bool)
    (e : option string) (st : State) :
  (forall q, q ∈ uploadProgress st -> fileName q <> n -> terminal q) ->
  forall q, q ∈ uploadProgress (updateProgress n p c e st) -> fileName q <> n -> terminal q.
Proof.
  intros H q Hq Hn.
  destruct (updateProgress_spec n p c e st) as (_ & _ & Ho & _).
  apply (Ho q Hn) in Hq. auto.
Qed.

Lemma updateProgress_all_terminal (n : string) (p : Z) (e : option string) (st : State) :
  p = 0 \/ p = 100 ->
  (forall q, q ∈ uploadProgress st -> fileName q <> n -> terminal q) ->
  Forall terminal (uploadProgress (updateProgress n p true e st)).
Proof.
  intros Hp H. apply Forall_forall. intros q Hq.
  destruct (updateProgress_spec n p true e st) as (_ & Hv & Ho & _).
  destruct (String.eqb_spec (fileName q) n) as [E|E].
  - destruct (Hv q Hq E) as (Hp' & Hc & _). unfold terminal. rewrite Hp', Hc. auto.
  - apply (Ho q E) in Hq. auto.
Qed.

Lemma updateProgress_NoDup (n : string) (p : Z) (c : bool) (e : option string)
    (st : State) :
  NoDup (progress_names st) -> NoDup (progress_names (updateProgress n p c e st)).
Proof. apply (updateProgress_spec n p c e st). Qed.

Variables (env : Env) (userId : string) (entryId : option string).

(** After a file, its name is among the progress entries, every entry is
    terminal again, and names are still distinct. *)
Lemma processFile_progress (s : Loop) (file : Js.File) :
  Forall terminal (uploadProgress (hook s)) ->
  NoDup (progress_names (hook s)) ->
  let s' := processFile env userId entryId s file in
  Forall terminal (uploadProgress (hook s'))
  /\ NoDup (progress_names (hook s'))
  /\ forall x, x ∈ progress_names (hook s') <-> x ∈ progress_names (hook s) \/ x = Js.name file.
Proof.
  intros Ht Hnd.
  assert (H0 : forall q, q ∈ uploadProgress (hook s) -> fileName q <> Js.name file -> terminal q).
  { intros q Hq _. rewrite Forall_forall in Ht. auto. }
  unfold processFile.
  destruct (negb (isValid (validateFile file))).
  { cbn [hook]. split; [apply updateProgress_all_terminal; auto|].
    split; [apply updateProgress_NoDup; exact Hnd|].
    intros x. apply updateProgress_names_iff. }
  destruct (generateStoragePath env (Js.name file) userId (world s)) as [path w1].
  set (st1 := updateProgress (Js.name file) 0 false None (hook s)).
  set (st2 := updateProgress (Js.name file) 50 false None st1).
  assert (H2 : forall q, q ∈ uploadProgress st2 -> fileName q <> Js.name file -> terminal q).
  { apply updateProgress_others_terminal, updateProgress_others_terminal, H0. }
  assert (N2 : NoDup (progress_names st2)).
  { apply updateProgress_NoDup, updateProgress_NoDup, Hnd. }
  assert (M2 : forall x, x ∈ progress_names st2 <-> x ∈ progress_names (hook s) \/ x = Js.name file).
  { intros x. unfold st2, st1. rewrite !updateProgress_names_iff. tauto. }
  assert (Done : forall p e, p = 0 \/ p = 100 ->
            let h := updateProgress (Js.name file) p true e st2 in
            Forall terminal (uploadProgress h) /\ NoDup (progress_names h)
            /\ forall x, x ∈ progress_names h <-> x ∈ progress_names (hook s) \/ x = Js.name file).
  { intros p e Hp h. split; [apply updateProgress_all_terminal; auto|].
    split; [apply updateProgress_NoDup; exact N2|].
    intros x. unfold h. rewrite updateProgress_names_iff, M2. tauto. }
  destruct (storage_upload env path file w1) as [[p| |] w2]; cbn [hook unexpected];
    try (apply Done; auto; fail).
  destruct (media_insert env _ w2) as [[m| |] w3]; cbn [hook unexpected];
    try (apply Done; auto; fail).
  set (st3 := updateProgress (Js.name file) 100 true _ st2).
  destruct (storage_remove env [p] w3) as [[| |] w4]; cbn [hook unexpected];
    try (apply Done; auto; fail).
  assert (H3 : forall q, q ∈ uploadProgress st3 -> fileName q <> Js.name file -> terminal q).
  { apply updateProgress_others_terminal, H2. }
  split; [apply updateProgress_all_terminal; auto|].
  split; [apply updateProgress_NoDup, updateProgress_NoDup; exact N2|].
  intros x. unfold st3. rewrite !updateProgress_names_iff, M2. tauto.
Qed.

Lemma uploadLoop_progress (files : list Js.File) (s : Loop) :
  Forall terminal (uploadProgress (hook s)) ->
  NoDup (progress_names (hook s)) ->
  let s' := uploadLoop env userId entryId files s in
  Forall terminal (uploadProgress (hook s'))
  /\ NoDup (progress_names (hook s'))
  /\ forall x, x ∈ progress_names (hook s') <->
              x ∈ progress_names (hook s) \/ exists f, f ∈ files /\ Js.name f = x.
Proof.
  revert s. induction files as [|f files IH]; intros s Ht Hnd.
  - cbn. split; [exact Ht|]. split; [exact Hnd|]. intros x. split; [auto|].
    intros [H|(f & Hf & _)]; [exact H|]. inversion Hf.
  - rewrite uploadLoop_cons.
    destruct (processFile_progress s f Ht Hnd) as (Ht1 & Hnd1 & Hn1).
    destruct (IH _ Ht1 Hnd1) as (Ht2 & Hnd2 & Hn2).
    split; [exact Ht2|]. split; [exact Hnd2|].
    intros x. rewrite Hn2, Hn1. split.
    + intros [[H| ->]|(f' & Hf & E)]; [auto| |].
      * right. exists f. split; [left|reflexivity].
      * right. exists f'. split; [right; exact Hf|exact E].
    + intros [H|(f' & Hf & E)]; [auto|].
      apply elem_of_cons in Hf. destruct Hf as [->|Hf]; [left; right; auto|].
      right. exists f'. auto.
Qed.

End progress2.

(** X2. When [uploadFiles] returns for an authenticated user, the upload flag
    is off, there is exactly one progress entry per distinct file name of the
    batch, and every entry is terminal: complete, at 0 or 100 percent. *)
Theorem uploadFiles_progress_terminal
    (env : Env) (userId : string) (entryId : option string)
    (files : list Js.File) (w : World) (st : MediaUpload.State) :
  let st' := snd (MediaUpload.uploadFiles env (Some userId) files entryId w st) in
  MediaUpload.uploading st' = false
  /\ Forall terminal (MediaUpload.uploadProgress st')
  /\ NoDup (progress_names st')
  /\ forall x, x ∈ progress_names st' <-> exists f, f ∈ files /\ Js.name f = x.
Proof.
  cbn.
  destruct (uploadLoop_progress env userId entryId files (MediaUpload.startLoop w st))
    as (Ht & Hnd & Hn); [constructor|constructor|].
  split; [reflexivity|]. split; [exact Ht|]. split; [exact Hnd|].
  intros x. unfold progress_names in *. cbn in *. rewrite Hn. split; [|auto].
  intros [H|H]; [inversion H|exact H].
Qed.

Ltac each_row H :=
  repeat (apply elem_of_cons in H; destruct H as [H|H]; [subst|]);
  try (apply elem_of_nil in H; destruct H).

(** ** Media uploads: what a batch leaves behind *)

Section effects.
Import MediaUpload.
Variables (env : Env) (userId : string) (entryId : option string).

Lemma processFile_effect (s : Loop) (file : Js.File) :
  let s' := processFile env userId entryId s file in
  tbl_entries (world s') = tbl_entries (world s)
  /\ blobs_kept (world s) (world s')
  /\ exists extra,
       tbl_media (world s') = tbl_media (world s) ++ extra
       /\ uploadedMedia s' = uploadedMedia s ++ extra
       /\ (length extra <= 1)%nat
       /\ Forall (added_for userId entryId (world s) (world s') file) extra.
Proof.
  assert (Hnil : forall w', tbl_media w' = tbl_media (world s) ->
            exists extra : list Media.t,
              tbl_media w' = tbl_media (world s) ++ extra
              /\ uploadedMedia s = uploadedMedia s ++ extra
              /\ (length extra <= 1)%nat
              /\ Forall (added_for userId entryId (world s) w' file) extra).
  { intros w' E. exists []. rewrite !app_nil_r. repeat split; auto; try (cbn; lia). }
  unfold processFile.
  destruct (negb (isValid (validateFile file))).
  { cbn. split; [reflexivity|]. split; [intros p f H; exact H|]. apply Hnil. reflexivity. }
  unfold generateStoragePath.
  set (path := (userId +:+ _)%string).
  cbv beta iota zeta.
  unfold storage_upload, remote. cbn [tick bump].
  destruct (fault env (S (S (tick (world s))))).
  2,3: cbn [world uploadedMedia unexpected]; split; [reflexivity|]; (split; [intros p f H; exact H|]); apply Hnil; reflexivity.
  cbn [bucket received bump].
  destruct (bucket (world s) !! path) as [old|] eqn:Hfree.
  { cbn [world uploadedMedia unexpected]. split; [reflexivity|]. split; [intros p f H; exact H|]. apply Hnil. reflexivity. }
  unfold media_insert, remote. cbn [tick set_bucket received bump].
  destruct (fault env (S (S (S (tick (world s)))))).
  - cbn [world uploadedMedia unexpected]. split; [reflexivity|]. split.
    + intros p f H. cbn. destruct (decide (path = p)) as [<-|Hne]; [congruence|].
      rewrite lookup_insert_ne by exact Hne. exact H.
    + eexists [_]. split; [reflexivity|]. split; [reflexivity|]. split; [cbn; lia|].
      constructor; [|constructor]. unfold added_for. cbn.
      repeat split; auto. apply lookup_insert_eq.
  - unfold storage_remove, remote. cbn [tick received set_bucket bump].
    destruct (fault env (S (S (S (S (tick (world s))))))); cbn [world uploadedMedia unexpected].
    + split; [reflexivity|]. split; [|apply Hnil; reflexivity].
      intros p f H. cbn. rewrite delete_insert_id by exact Hfree. exact H.
    + split; [reflexivity|]. split; [|apply Hnil; reflexivity].
      intros p f H. cbn. destruct (decide (path = p)) as [<-|Hne]; [congruence|].
      rewrite lookup_insert_ne by exact Hne. exact H.
    + split; [reflexivity|]. split; [|apply Hnil; reflexivity].
      intros p f H. cbn. destruct (decide (path = p)) as [<-|Hne]; [congruence|].
      rewrite lookup_insert_ne by exact Hne. exact H.
  - cbn [world uploadedMedia unexpected]. split; [reflexivity|]. split; [|apply Hnil; reflexivity].
    intros p f H. cbn. destruct (decide (path = p)) as [<-|Hne]; [congruence|].
    rewrite lookup_insert_ne by exact Hne. exact H.
Qed.

Lemma blobs_kept_trans (w1 w2 w3 : World) :
  blobs_kept w1 w2 -> blobs_kept w2 w3 -> blobs_kept w1 w3.
Proof. intros H1 H2 p f H. auto. Qed.

Lemma uploadLoop_effect (files : list Js.File) (s : Loop) :
  let s' := uploadLoop env userId entryId files s in
  tbl_entries (world s') = tbl_entries (world s)
  /\ blobs_kept (world s) (world s')
  /\ exists extra,
       tbl_media (world s') = tbl_media (world s) ++ extra
       /\ uploadedMedia s' = uploadedMedia s ++ extra
       /\ (length extra <= length files)%nat
       /\ Forall (fun m => exists f, f ∈ files
                            /\ added_for userId entryId (world s) (world s') f m) extra
       /\ NoDup (map Media.storage_path extra).
Proof.
  revert s. induction files as [|f files IH]; intros s.
  - cbn. split; [reflexivity|]. split; [intros p f H; exact H|].
    exists []. rewrite !app_nil_r. repeat split; auto; constructor.
  - rewrite uploadLoop_cons.
    destruct (processFile_effect s f) as (He1 & Hk1 & ex1 & Hm1 & Hu1 & Hl1 & Ha1).
    set (s1 := processFile env userId entryId s f) in *.
    destruct (IH s1) as (He2 & Hk2 & ex2 & Hm2 & Hu2 & Hl2 & Ha2 & Hnd2).
    set (s2 := uploadLoop env userId entryId files s1) in *.
    split; [congruence|]. split; [eapply blobs_kept_trans; eassumption|].
    exists (ex1 ++ ex2).
    split; [rewrite Hm2, Hm1, List.app_assoc; reflexivity|].
    split; [rewrite Hu2, Hu1, List.app_assoc; reflexivity|].
    split; [rewrite length_app; cbn; lia|].
    split.
    + apply Forall_app. split.
      * eapply Forall_impl; [exact Ha1|]. intros m (A & B & C & D & E).
        exists f. split; [left|].
        split; [exact A|]. split; [exact B|]. split; [exact C|]. split; [exact D|].
        apply Hk2. exact E.
      * eapply Forall_impl; [exact Ha2|]. intros m (f' & Hin & A & B & C & D & E).
        exists f'. split; [right; exact Hin|].
        split; [exact A|]. split; [exact B|]. split; [exact C|]. split; [|exact E].
        destruct (bucket (world s) !! Media.storage_path m) as [b|] eqn:Hb; [|reflexivity].
        apply Hk1 in Hb. congruence.
    + rewrite map_app. apply NoDup_app. split; [|split; [|exact Hnd2]].
      * destruct ex1 as [|m1 [|m2 ex1]]; [constructor|apply NoDup_singleton|cbn in Hl1; lia].
      * intros p Hp1 Hp2.
        apply list_elem_of_fmap in Hp1, Hp2.
        destruct Hp1 as (m1 & -> & Hin1), Hp2 as (m2 & E & Hin2).
        rewrite Forall_forall in Ha1, Ha2.
        destruct (Ha1 m1 Hin1) as (_ & _ & _ & _ & H1).
        destruct (Ha2 m2 Hin2) as (f' & _ & _ & _ & _ & H2 & _).
        rewrite <- E in H2. congruence.
Qed.

End effects.

(** X3. [uploadFiles] keeps the store consistent in one direction: when every
    media record has its blob in the bucket before the call, every media
    record has its blob after it, whatever the backend answered to each call. *)
Theorem uploadFiles_records_keep_blobs
    (env : Env) (userId : string) (entryId : option string)
    (files : list Js.File) (w : World) (st : MediaUpload.State) :
  (forall m, m ∈ tbl_media w -> has_blob w m) ->
  let w' := snd (fst (MediaUpload.uploadFiles env (Some userId) files entryId w st)) in
  forall m, m ∈ tbl_media w' -> has_blob w' m.
Proof.
  intros Hinv. cbn.
  destruct (uploadLoop_effect env userId entryId files (MediaUpload.startLoop w st))
    as (_ & Hk & extra & Hm & _ & _ & Ha & _).
  cbn [MediaUpload.world MediaUpload.startLoop] in *.
  intros m Hin. rewrite Hm in Hin. apply elem_of_app in Hin. unfold has_blob.
  destruct Hin as [Hin|Hin].
  - destruct (Hinv m Hin) as [b Hb]. exists b. apply Hk. exact Hb.
  - rewrite Forall_forall in Ha. destruct (Ha m Hin) as (f & _ & _ & _ & _ & _ & Hb).
    exists f. exact Hb.
Qed.

Lemma uploadFiles_records_keep_blobs_witness :
  Forall
    (has_blob (snd (fst (MediaUpload.uploadFiles Sample.env (Some "u1"%string)
                           [Sample.photo; Sample.program] None
                           Fixtures.stocked Sample.idle_upload))))
    (tbl_media (snd (fst (MediaUpload.uploadFiles Sample.env (Some "u1"%string)
                            [Sample.photo; Sample.program] None
                            Fixtures.stocked Sample.idle_upload)))).
Proof.
  apply Forall_forall.
  apply (uploadFiles_records_keep_blobs Sample.env "u1" None
           [Sample.photo; Sample.program] Fixtures.stocked Sample.idle_upload).
  intros m Hm. unfold Fixtures.stocked in Hm. cbn [tbl_media] in Hm.
  each_row Hm; exists Sample.photo; vm_compute; reflexivity.
Defined.

(** X4. The list [uploadFiles] returns is exactly what the call appended to the
    media table, in order. It has at most one record per file of the batch,
    the storage paths of its records are distinct, and each record belongs to
    the user and the entry given, describes a file of the batch, and has that
    file as its blob at a path that was free before the call. *)
Theorem uploadFiles_result_is_what_was_recorded
    (env : Env) (userId : string) (entryId : option string)
    (files : list Js.File) (w : World) (st : MediaUpload.State) :
  let '(result, w', _) := MediaUpload.uploadFiles env (Some userId) files entryId w st in
  tbl_media w' = tbl_media w ++ result
  /\ (length result <= length files)%nat
  /\ NoDup (map Media.storage_path result)
  /\ Forall (fun m => exists f, f ∈ files /\ added_for userId entryId w w' f m) result.
Proof.
  cbn.
  destruct (uploadLoop_effect env userId entryId files (MediaUpload.startLoop w st))
    as (_ & _ & extra & Hm & Hu & Hl & Ha & Hnd).
  cbn [MediaUpload.world MediaUpload.startLoop MediaUpload.uploadedMedia app] in *.
  rewrite Hu, Hm. auto.
Qed.

(** X5. [uploadFiles] never touches the entries table and never removes or
    overwrites a blob that was in the bucket before the call, also when it
    compensates for a failed insert. *)
Theorem uploadFiles_only_adds
    (env : Env) (userId : string) (entryId : option string)
    (files : list Js.File) (w : World) (st : MediaUpload.State) :
  let w' := snd (fst (MediaUpload.uploadFiles env (Some userId) files entryId w st)) in
  tbl_entries w' = tbl_entries w /\ blobs_kept w w'.
Proof.
  cbn.
  destruct (uploadLoop_effect env userId entryId files (MediaUpload.startLoop w st))
    as (He & Hk & _). auto.
Qed.

(** ** Deleting a media record *)

Section delete_media.
Import MediaUpload.

Lemma media_match_spec (id user : string) (m : Media.t) :
  media_match id user m = true <-> Media.id m = id /\ Media.user_id m = user.
Proof. unfold media_match. rewrite andb_true_iff, !String.eqb_eq. reflexivity. Qed.

Lemma bfilter_nil_iff {A} (p : A -> bool) (l : list A) :
  List.filter p l = [] <-> forall x, x ∈ l -> p x = false.
Proof.
  induction l as [|a l IH]; cbn.
  - split; [intros _ x H; inversion H|reflexivity].
  - destruct (p a) eqn:E.
    + split; [discriminate|]. intros H. specialize (H a ltac:(left)). congruence.
    + rewrite IH. split.
      * intros H x Hx. apply elem_of_cons in Hx. destruct Hx as [->|Hx]; auto.
      * intros H x Hx. apply H. right. exact Hx.
Qed.

(** The three calls of a [deleteMedia] that goes all the way, and what each
    outcome leaves behind. *)
Lemma deleteMedia_found (env : Env) (userId mediaId : string) (w : World) (m : Media.t) :
  fault env (tick w) = NoFault ->
  List.filter (media_match mediaId userId) (tbl_media w) = [m] ->
  let '(ok, w') := deleteMedia env (Some userId) mediaId w in
  let removal := fault env (S (tick w)) in
  let deletion := fault env (S (S (tick w))) in
  tbl_entries w' = tbl_entries w /\
  match removal with
  | FaultThrow =>
      ok = false /\ tbl_media w' = tbl_media w /\ bucket w' = bucket w
      /\ calls w' = calls w ++ [MediaSelectPath mediaId userId;
                                StorageRemove [Media.storage_path m]]
  | _ =>
      calls w' = calls w ++ [MediaSelectPath mediaId userId;
                             StorageRemove [Media.storage_path m];
                             MediaDelete mediaId userId]
      /\ bucket w' = (if removal is NoFault
                      then delete (Media.storage_path m) (bucket w) else bucket w)
      /\ (if deletion is NoFault
          then ok = true
               /\ tbl_media w'
                  = List.filter (fun x => negb (media_match mediaId userId x)) (tbl_media w)
          else ok = false /\ tbl_media w' = tbl_media w)
  end.
Proof.
  intros Hf Hm. unfold deleteMedia, media_select_path, remote. rewrite Hf.
  cbn [tbl_media received]. rewrite Hm. cbn [single].
  unfold storage_remove, remote. cbn [tick received].
  assert (Hc3 : forall (l : list Call) a b c, ((l ++ [a]) ++ [b]) ++ [c] = l ++ [a; b; c])
    by (intros; rewrite <- !List.app_assoc; reflexivity).
  assert (Hc2 : forall (l : list Call) a b, (l ++ [a]) ++ [b] = l ++ [a; b])
    by (intros; rewrite <- !List.app_assoc; reflexivity).
  destruct (fault env (S (tick w))) eqn:Hr; cbn [foldr].
  - unfold media_delete, remote. cbn [tick received set_bucket].
    destruct (fault env (S (S (tick w)))); cbn; rewrite Hc3; auto.
  - unfold media_delete, remote. cbn [tick received set_bucket].
    destruct (fault env (S (S (tick w)))); cbn; rewrite Hc3; auto.
  - cbn. rewrite Hc2. auto 6.
Qed.


Lemma bfilter_singleton_elem {A} (p : A -> bool) (l : list A) (x : A) :
  List.filter p l = [x] -> x ∈ l /\ p x = true.
Proof.
  intros H. apply elem_of_bfilter. rewrite H. left.
Qed.

(** X6. When [deleteMedia] returns [true] it made exactly three calls, in this
    order: the lookup of the storage path, the removal of that blob, the
    deletion of the row. No other blob changed, the media table lost exactly
    the user's rows of that id, and the entries table is untouched. *)
Theorem deleteMedia_true_means_row_removed
    (env : Env) (userId mediaId : string) (w : World) :
  let '(ok, w') := deleteMedia env (Some userId) mediaId w in
  ok = true ->
  (exists m, m ∈ tbl_media w /\ Media.id m = mediaId /\ Media.user_id m = userId
             /\ calls w' = calls w ++ [MediaSelectPath mediaId userId;
                                        StorageRemove [Media.storage_path m];
                                        MediaDelete mediaId userId]
             /\ (forall p, p <> Media.storage_path m -> bucket w' !! p = bucket w !! p))
  /\ (forall x, x ∈ tbl_media w' <->
        x ∈ tbl_media w /\ ~ (Media.id x = mediaId /\ Media.user_id x = userId))
  /\ tbl_entries w' = tbl_entries w.
Proof.
  destruct (fault env (tick w)) eqn:Hf.
  2,3: unfold deleteMedia, media_select_path, remote; rewrite Hf; discriminate.
  destruct (List.filter (media_match mediaId userId) (tbl_media w)) as [|m [|m2 l]] eqn:Hm.
  1,3: unfold deleteMedia, media_select_path, remote; rewrite Hf;
       cbn [tbl_media received]; rewrite Hm; discriminate.
  pose proof (deleteMedia_found env userId mediaId w m Hf Hm) as H.
  destruct (deleteMedia env (Some userId) mediaId w) as [ok w']. cbv zeta in H.
  destruct H as [Hte H].
  destruct (bfilter_singleton_elem _ _ _ Hm) as [Hin Hmatch].
  apply media_match_spec in Hmatch. destruct Hmatch as [Hid Hu].
  intros ->.
  destruct (fault env (S (tick w))) eqn:Hr.
  3: destruct H as [H _]; discriminate H.
  all: destruct H as (Hc & Hb & Hd);
    destruct (fault env (S (S (tick w)))); try (destruct Hd as [Hd _]; discriminate Hd);
    destruct Hd as [_ Ht];
    (split; [exists m; repeat split; auto|split; [|exact Hte]]).
  - intros p Hp. rewrite Hb. apply lookup_delete_ne. congruence.
  - intros x. rewrite Ht, elem_of_bfilter, negb_true_iff, <- not_true_iff_false,
      media_match_spec. reflexivity.
  - intros p Hp. rewrite Hb. reflexivity.
  - intros x. rewrite Ht, elem_of_bfilter, negb_true_iff, <- not_true_iff_false,
      media_match_spec. reflexivity.
Qed.

Lemma deleteMedia_true_means_row_removed_witness :
  let '(ok, w') := deleteMedia Sample.env (Some "u1"%string) "m1" Fixtures.stocked in
  ok = true /\ tbl_entries w' = tbl_entries Fixtures.stocked.
Proof.
  pose proof (deleteMedia_true_means_row_removed Sample.env "u1" "m1" Fixtures.stocked) as H.
  destruct (deleteMedia Sample.env (Some "u1"%string) "m1" Fixtures.stocked)
    as [ok w'] eqn:E.
  assert (Hok : ok = true).
  { apply (f_equal fst) in E. vm_compute in E. symmetry. exact E. }
  split; [exact Hok|]. apply (H Hok).
Defined.

(** X7. When the user has no media record of the given id (none at all, or only
    one of another user), [deleteMedia] returns [false] after the lookup
    alone: nothing is removed from the bucket or from the tables. *)
Theorem deleteMedia_not_found
    (env : Env) (userId mediaId : string) (w : World) :
  (forall m, m ∈ tbl_media w -> ~ (Media.id m = mediaId /\ Media.user_id m = userId)) ->
  let '(ok, w') := deleteMedia env (Some userId) mediaId w in
  ok = false
  /\ calls w' = calls w ++ [MediaSelectPath mediaId userId]
  /\ tbl_media w' = tbl_media w
  /\ bucket w' = bucket w
  /\ tbl_entries w' = tbl_entries w.
Proof.
  intros Hnone.
  assert (Hm : List.filter (media_match mediaId userId) (tbl_media w) = []).
  { apply bfilter_nil_iff. intros m Hin. apply not_true_iff_false.
    rewrite media_match_spec. auto. }
  unfold deleteMedia, media_select_path, remote.
  destruct (fault env (tick w)); cbn [tbl_media received]; try rewrite Hm; cbn; auto.
Qed.

Lemma deleteMedia_not_found_witness :
  let '(ok, w') := deleteMedia Sample.env (Some "u1"%string) "m2" Fixtures.stocked in
  ok = false
  /\ calls w' = calls Fixtures.stocked ++ [MediaSelectPath "m2" "u1"]
  /\ tbl_media w' = tbl_media Fixtures.stocked
  /\ bucket w' = bucket Fixtures.stocked
  /\ tbl_entries w' = tbl_entries Fixtures.stocked.
Proof.
  apply (deleteMedia_not_found Sample.env "u1" "m2" Fixtures.stocked).
  intros m Hm [E1 E2]. unfold Fixtures.stocked in Hm. cbn [tbl_media] in Hm.
  each_row Hm; vm_compute in E1, E2; congruence.
Defined.

(** X8. An error answer to the removal of the blob does not stop
    [deleteMedia]: the row is deleted all the same and the call returns
    [true], while the bucket is as it was, so the blob stays behind without
    a record. *)
Theorem deleteMedia_storage_error_is_not_fatal
    (env : Env) (userId mediaId : string) (w : World) (m : Media.t) (message : string) :
  fault env (tick w) = NoFault ->
  List.filter (media_match mediaId userId) (tbl_media w) = [m] ->
  fault env (S (tick w)) = FaultError message ->
  fault env (S (S (tick w))) = NoFault ->
  let '(ok, w') := deleteMedia env (Some userId) mediaId w in
  ok = true
  /\ (forall x, x ∈ tbl_media w' -> ~ (Media.id x = mediaId /\ Media.user_id x = userId))
  /\ bucket w' = bucket w.
Proof.
  intros Hf Hm Hr Hd. pose proof (deleteMedia_found env userId mediaId w m Hf Hm) as H.
  destruct (deleteMedia env (Some userId) mediaId w) as [ok w']. cbv zeta in H.
  rewrite Hr, Hd in H. destruct H as (_ & _ & Hb & Hok & Ht).
  split; [exact Hok|]. split; [|exact Hb].
  intros x Hx. rewrite Ht in Hx. apply elem_of_bfilter in Hx. destruct Hx as [_ Hx].
  apply negb_true_iff, not_true_iff_false in Hx. rewrite media_match_spec in Hx. exact Hx.
Qed.

Lemma deleteMedia_storage_error_is_not_fatal_witness :
  let '(ok, w') :=
    deleteMedia (Sample.failing_at 1) (Some "u1"%string) "m1" Fixtures.stocked in
  ok = true
  /\ (forall x, x ∈ tbl_media w' ->
        ~ (Media.id x = "m1"%string /\ Media.user_id x = "u1"%string))
  /\ bucket w' = bucket Fixtures.stocked.
Proof.
  apply (deleteMedia_storage_error_is_not_fatal (Sample.failing_at 1) "u1" "m1"
           Fixtures.stocked Fixtures.media_mine "connection reset").
  - reflexivity.
  - vm_compute. reflexivity.
  - reflexivity.
  - reflexivity.
Defined.

(** X9. [deleteMedia] removes the blob before it deletes the row and does not
    put it back: when the blob was removed and the row deletion then fails,
    the call returns [false] and the record is still in the table, with no
    blob at its path. *)
Theorem deleteMedia_failed_row_delete_loses_blob
    (env : Env) (userId mediaId : string) (w : World) (m : Media.t) :
  fault env (tick w) = NoFault ->
  List.filter (media_match mediaId userId) (tbl_media w) = [m] ->
  fault env (S (tick w)) = NoFault ->
  fault env (S (S (tick w))) <> NoFault ->
  let '(ok, w') := deleteMedia env (Some userId) mediaId w in
  ok = false
  /\ m ∈ tbl_media w'
  /\ bucket w' !! Media.storage_path m = None.
Proof.
  intros Hf Hm Hr Hd. pose proof (deleteMedia_found env userId mediaId w m Hf Hm) as H.
  destruct (deleteMedia env (Some userId) mediaId w) as [ok w']. cbv zeta in H.
  rewrite Hr in H. destruct H as (_ & _ & Hb & H).
  destruct (bfilter_singleton_elem _ _ _ Hm) as [Hin _].
  destruct (fault env (S (S (tick w)))); [congruence| |];
    destruct H as [Hok Ht]; (split; [exact Hok|]); rewrite Ht, Hb;
    (split; [exact Hin|apply lookup_delete_eq]).
Qed.

Lemma deleteMedia_failed_row_delete_loses_blob_witness :
  let '(ok, w') :=
    deleteMedia (Sample.failing_at 2) (Some "u1"%string) "m1" Fixtures.stocked in
  ok = false
  /\ Fixtures.media_mine ∈ tbl_media w'
  /\ bucket w' !! Media.storage_path Fixtures.media_mine = None.
Proof.
  apply (deleteMedia_failed_row_delete_loses_blob (Sample.failing_at 2) "u1" "m1"
           Fixtures.stocked Fixtures.media_mine).
  - reflexivity.
  - vm_compute. reflexivity.
  - reflexivity.
  - intros E. vm_compute in E. congruence.
Defined.

End delete_media.

(** ** Updating an entry *)

Section update_entry.
Import Entries.

Lemma map_if_none {A} (p : A -> bool) (f : A -> A) (l : list A) :
  (forall x, x ∈ l -> p x = false) -> map (fun x => if p x then f x else x) l = l.
Proof.
  induction l as [|a l IH]; intros H; [reflexivity|]. cbn.
  rewrite (H a ltac:(left)). f_equal. apply IH. intros x Hx. apply H. right. exact Hx.
Qed.

(** What [updateEntry] does when the call is served and one row matches. *)
Lemma updateEntry_found (env : Env) (userId id : string) (data : EntryUpdate.t)
    (w : World) (st : State) (e0 : Entry.t) :
  fault env (S (tick w)) = NoFault ->
  List.filter (entry_match id userId) (tbl_entries w) = [e0] ->
  let e' := patched data (Date.toISOString (Date_now env (tick w))) e0 in
  updateEntry env (Some userId) id data w st
  = (Some e',
     set_entries
       (map (fun e => if entry_match id userId e
                      then patched data (Date.toISOString (Date_now env (tick w))) e
                      else e) (tbl_entries w))
       (received (EntriesUpdate id userId data (Date.toISOString (Date_now env (tick w))))
          (bump w)),
     setEntries (map (fun entry => if String.eqb (Entry.id entry) id then e' else entry)) st).
Proof.
  intros Hf Hm e'. unfold updateEntry, entries_update, remote. cbn [tick bump].
  rewrite Hf. cbn [tbl_entries received bump]. rewrite Hm. reflexivity.
Qed.

(** X10. When the update is served and the user has one entry of the given id,
    [updateEntry] returns that entry with the patch applied: the id and
    [created_at] are kept and [updated_at] is the client clock read at the
    start of the call. The row is replaced where it stands in the table, and
    in the list in memory every entry of that id is replaced where it
    stands, so the order of the list does not change even when the patch
    moves [entry_date]. *)
Theorem updateEntry_replaces_in_place
    (env : Env) (userId id : string) (data : EntryUpdate.t)
    (w : World) (st : State) (e0 : Entry.t) :
  fault env (S (tick w)) = NoFault ->
  List.filter (entry_match id userId) (tbl_entries w) = [e0] ->
  let '(result, w', st') := updateEntry env (Some userId) id data w st in
  exists e',
    result = Some e'
    /\ e' = patched data (Date.toISOString (Date_now env (tick w))) e0
    /\ Entry.id e' = id
    /\ Entry.created_at e' = Entry.created_at e0
    /\ Entry.updated_at e' = Date.toISOString (Date_now env (tick w))
    /\ length (tbl_entries w') = length (tbl_entries w)
    /\ (forall i x, tbl_entries w !! i = Some x ->
          tbl_entries w' !! i = Some (if entry_match id userId x then e' else x))
    /\ map Entry.id (entries st') = map Entry.id (entries st)
    /\ (forall i x, entries st !! i = Some x ->
          entries st' !! i = Some (if String.eqb (Entry.id x) id then e' else x)).
Proof.
  intros Hf Hm. rewrite (updateEntry_found env userId id data w st e0 Hf Hm).
  cbv zeta. eexists. split; [reflexivity|]. split; [reflexivity|].
  destruct (proj1 (elem_of_bfilter _ _ e0) ltac:(rewrite Hm; left)) as [Hin Hmatch].
  apply entry_match_spec in Hmatch. destruct Hmatch as [Hid Hu].
  split; [exact Hid|]. split; [reflexivity|]. split; [reflexivity|].
  cbn [tbl_entries set_entries entries setEntries].
  split; [apply length_map|].
  split.
  { intros i x Hx. rewrite list_lookup_fmap, Hx. cbn. f_equal.
    destruct (entry_match id userId x) eqn:E; [|reflexivity].
    assert (Hx' : x ∈ List.filter (entry_match id userId) (tbl_entries w)).
    { apply elem_of_bfilter. split; [|exact E]. eapply list_elem_of_lookup_2. exact Hx. }
    rewrite Hm in Hx'. apply list_elem_of_singleton in Hx'. now subst x. }
  split.
  { rewrite map_map. apply map_ext. intros x.
    destruct (String.eqb_spec (Entry.id x) id) as [E|E]; [cbn; congruence|reflexivity]. }
  intros i x Hx. rewrite list_lookup_fmap, Hx. reflexivity.
Qed.

Lemma updateEntry_replaces_in_place_witness :
  exists e',
    fst (fst (updateEntry Sample.env (Some "u1"%string) "e1" Fixtures.retitle
                Fixtures.stocked (Sample.loaded [Sample.entry_mine]))) = Some e'
    /\ Entry.title e' = "Evening Walk"%string
    /\ Entry.created_at e' = Entry.created_at Sample.entry_mine.
Proof.
  pose proof (updateEntry_replaces_in_place Sample.env "u1" "e1" Fixtures.retitle
                Fixtures.stocked (Sample.loaded [Sample.entry_mine]) Sample.entry_mine
                eq_refl eq_refl) as H.
  destruct (updateEntry Sample.env (Some "u1"%string) "e1" Fixtures.retitle
              Fixtures.stocked (Sample.loaded [Sample.entry_mine])) as [[result w'] st'].
  destruct H as (e' & -> & He & _ & Hc & _).
  exists e'. split; [reflexivity|]. split; [|exact Hc].
  rewrite He. reflexivity.
Defined.

(** X11. When the update call fails, or the user has no entry of the given id,
    [updateEntry] returns [null] and changes nothing: the hook state, the
    tables and the bucket are as before. *)
Theorem updateEntry_missing_or_failed_changes_nothing
    (env : Env) (userId id : string) (data : EntryUpdate.t)
    (w : World) (st : State) :
  fault env (S (tick w)) <> NoFault
  \/ (forall x, x ∈ tbl_entries w -> ~ (Entry.id x = id /\ Entry.user_id x = userId)) ->
  let '(result, w', st') := updateEntry env (Some userId) id data w st in
  result = None /\ st' = st /\ tbl_entries w' = tbl_entries w
  /\ tbl_media w' = tbl_media w /\ bucket w' = bucket w.
Proof.
  intros H. unfold updateEntry, entries_update, remote. cbn [tick bump].
  destruct (fault env (S (tick w))) eqn:Hf.
  - destruct H as [H|H]; [congruence|].
    assert (Hnone : forall x, x ∈ tbl_entries w -> entry_match id userId x = false).
    { intros x Hx. apply not_true_iff_false. rewrite entry_match_spec. auto. }
    cbn [tbl_entries received bump].
    rewrite (proj2 (bfilter_nil_iff _ _) Hnone). cbn.
    rewrite (map_if_none _ _ _ Hnone). auto.
  - cbn. auto.
  - cbn. auto.
Qed.

Lemma updateEntry_missing_or_failed_changes_nothing_witness :
  let '(result, w', st') :=
    updateEntry (Sample.failing_at 1) (Some "u1"%string) "e1" Fixtures.retitle
      Fixtures.stocked (Sample.loaded [Sample.entry_mine]) in
  result = None /\ st' = Sample.loaded [Sample.entry_mine]
  /\ tbl_entries w' = tbl_entries Fixtures.stocked
  /\ tbl_media w' = tbl_media Fixtures.stocked
  /\ bucket w' = bucket Fixtures.stocked.
Proof.
  apply (updateEntry_missing_or_failed_changes_nothing (Sample.failing_at 1) "u1" "e1"
           Fixtures.retitle Fixtures.stocked (Sample.loaded [Sample.entry_mine])).
  left. intros E. vm_compute in E. congruence.
Defined.

End update_entry.

(** ** Loading and searching entries *)

Section load_entries.
Import Entries.


(** [searchQuery && searchQuery.trim()] holds when the text has a character
    that is not white space. *)
Lemma has_search_trim (q : string) : has_search (Some q) = Js.trim_nonempty q.
Proof. unfold has_search. destruct q; reflexivity. Qed.

Lemma bfilter_ext_in {A} (p q : A -> bool) (l : list A) :
  (forall x, p x = q x) -> List.filter p l = List.filter q l.
Proof. intros H. apply filter_ext. exact H. Qed.

(** The rows a list or search query selects, before the limit. *)
Lemma select_rows_plain (env : Env) (userId : string) (flt : option string)
    (lim : option nat) (rows : list Entry.t) :
  select_rows env {| q_user := userId; q_or := flt; q_gte := None; q_lte := None;
                     q_limit := lim |} rows
  = opt_limit lim
      (merge_sort (newer_first env)
         (List.filter (fun e => String.eqb (Entry.user_id e) userId
                                && match flt with
                                   | Some f => or_filter env f e
                                   | None => true
                                   end) rows)).
Proof.
  unfold select_rows.
  cbn [q_user q_or q_limit q_gte q_lte fmap option_fmap option_map opt_filter].
  f_equal. f_equal. destruct flt as [f|]; cbn.
  - rewrite bfilter_bfilter. reflexivity.
  - apply filter_ext. intros e. now rewrite andb_true_r.
Qed.

Lemma loadEntries_served (env : Env) (userId : string) (limit : nat)
    (searchQuery : option string) (w : World) (st : State) :
  fault env (tick w) = NoFault ->
  snd (loadEntries env (Some userId) limit searchQuery w st)
  = setLoading false
      (setEntries (fun _ => take limit
                     (merge_sort (newer_first env)
                        (List.filter (wanted env userId searchQuery) (tbl_entries w))))
         (setError None (setLoading true st))).
Proof.
  intros Hf. unfold loadEntries, entries_select. rewrite remote_healthy by exact Hf.
  cbn [snd tbl_entries received].
  rewrite select_rows_plain. cbn [opt_limit].
  assert (E : forall rows,
            List.filter (fun e => String.eqb (Entry.user_id e) userId
                                  && match (if has_search searchQuery
                                            then search_filter <$> searchQuery else None) with
                                     | Some f => or_filter env f e
                                     | None => true
                                     end) rows
            = List.filter (wanted env userId searchQuery) rows).
  { intros rows. apply filter_ext. intros e. unfold wanted. f_equal.
    destruct searchQuery as [q|]; [|reflexivity].
    rewrite has_search_trim. destruct (Js.trim_nonempty q); reflexivity. }
  rewrite E. reflexivity.
Qed.

(** X12. A served [loadEntries] leaves no error and no loading flag, and its
    entries are the [limit] newest of the rows wanted (the user's rows, and
    with a search in force those the filter lets through): they are sorted
    newest first, there are [min limit n] of them for [n] wanted rows, and
    they are a part of the wanted rows whose remainder holds nothing newer
    than any entry loaded. *)
Theorem loadEntries_loads_the_newest
    (env : Env) (userId : string) (limit : nat) (searchQuery : option string)
    (w : World) (st : State) :
  fault env (tick w) = NoFault ->
  let st' := snd (loadEntries env (Some userId) limit searchQuery w st) in
  let matching := List.filter (wanted env userId searchQuery) (tbl_entries w) in
  error st' = None /\ loading st' = false
  /\ StronglySorted (newer_first env) (entries st')
  /\ length (entries st') = Nat.min limit (length matching)
  /\ exists rest,
       entries st' ++ rest ≡ₚ matching
       /\ forall a b, a ∈ entries st' -> b ∈ rest -> instant env b <= instant env a.
Proof.
  intros Hf. cbv zeta. rewrite loadEntries_served by exact Hf.
  cbn [error loading entries setLoading setEntries setError].
  set (matching := List.filter _ _). set (sorted := merge_sort (newer_first env) matching).
  pose proof (StronglySorted_merge_sort (newer_first env) matching) as Hs. fold sorted in Hs.
  pose proof (merge_sort_Permutation (newer_first env) matching) as Hp. fold sorted in Hp.
  rewrite <- (take_drop limit sorted) in Hs.
  split; [reflexivity|]. split; [reflexivity|].
  split; [eapply StronglySorted_app_1_l; exact Hs|].
  split; [rewrite length_take, (Permutation_length Hp); lia|].
  exists (drop limit sorted). split; [rewrite take_drop; exact Hp|].
  intros a b Ha Hb. exact (StronglySorted_app_1_elem_of _ _ _ _ _ Hs Ha Hb).
Qed.

Lemma loadEntries_loads_the_newest_witness :
  length (entries (snd (loadEntries Sample.env (Some "u1"%string) 2 None
                          Sample.boundary_world Sample.idle_entries))) = 2%nat.
Proof.
  pose proof (loadEntries_loads_the_newest Sample.env "u1" 2 None
                Sample.boundary_world Sample.idle_entries eq_refl) as H.
  cbv zeta in H. destruct H as (_ & _ & _ & H & _).
  rewrite H. vm_compute. reflexivity.
Defined.

(** X13. [searchEntries] with a blank query returns the empty list without any
    call. Otherwise it makes one select, with the search filter and without a
    limit, and changes no table; a failed call gives the empty list, and a
    served one gives all of the user's rows the filter lets through, newest
    first. *)
Theorem searchEntries_selects
    (env : Env) (userId query : string) (w : World) :
  let '(result, w') := searchEntries env (Some userId) query w in
  (Js.trim_nonempty query = false -> result = [] /\ w' = w)
  /\ (Js.trim_nonempty query = true ->
      calls w' = calls w ++ [EntriesSelect {| q_user := userId;
                                              q_or := Some (search_filter query);
                                              q_gte := None; q_lte := None;
                                              q_limit := None |}]
      /\ tbl_entries w' = tbl_entries w
      /\ (fault env (tick w) <> NoFault -> result = [])
      /\ (fault env (tick w) = NoFault ->
          StronglySorted (newer_first env) result
          /\ result ≡ₚ List.filter
                         (fun e => String.eqb (Entry.user_id e) userId
                                   && or_filter env (search_filter query) e)
                         (tbl_entries w))).
Proof.
  unfold searchEntries. destruct (Js.trim_nonempty query); cbn [negb].
  - unfold entries_select, remote.
    destruct (fault env (tick w)) eqn:Hf; cbn [snd];
      (split; [intros [=]|intros _]).
    + split; [reflexivity|]. split; [reflexivity|]. split; [congruence|].
      intros _. cbn [tbl_entries received]. rewrite select_rows_plain. cbn [opt_limit].
      split; [apply StronglySorted_merge_sort; typeclasses eauto|].
      apply merge_sort_Permutation.
    + split; [reflexivity|]. split; [reflexivity|]. split; [reflexivity|]. intros [=].
    + split; [reflexivity|]. split; [reflexivity|]. split; [reflexivity|]. intros [=].
  - split; [auto|intros [=]].
Qed.

Lemma searchEntries_selects_witness :
  searchEntries Sample.env (Some "u1"%string) "  " Sample.boundary_world
  = ([], Sample.boundary_world).
Proof.
  pose proof (searchEntries_selects Sample.env "u1" "  " Sample.boundary_world) as H.
  destruct (searchEntries Sample.env (Some "u1"%string) "  " Sample.boundary_world)
    as [result w'].
  destruct H as [H _]. destruct (H eq_refl) as [-> ->]. reflexivity.
Defined.

(** A query made of a no-break space is blank: [searchEntries] makes no
    call for it, and [loadEntries] sends its select without a filter. *)
Example blank_beyond_ascii :
  searchEntries Sample.env (Some "u1"%string) Fixtures.nbsp Sample.boundary_world
  = ([], Sample.boundary_world)
  /\ calls (fst (loadEntries Sample.env (Some "u1"%string) 20 (Some Fixtures.nbsp)
                   Sample.boundary_world Sample.idle_entries))
     = [EntriesSelect {| q_user := "u1"; q_or := None; q_gte := None; q_lte := None;
                         q_limit := Some 20%nat |}].
Proof. split; vm_compute; reflexivity. Qed.



End load_entries.

(** ** Creating, deleting, and the paths of blobs *)

Section create_delete.
Import Entries.

(** X15. [createEntry] for an authenticated user always makes one insert call,
    with the row built from the form. It returns [null] exactly when that
    call fails, and then neither the entries table nor the hook state
    changes. *)
Theorem createEntry_failure_changes_nothing
    (env : Env) (userId : string) (data : EntryFormData) (w : World) (st : State) :
  let '(result, w', st') := createEntry env (Some userId) data w st in
  calls w' = calls w ++ [EntriesInsertRow (entryData userId (nowISO_of env data w) data)]
  /\ (result = None ->
      st' = st /\ tbl_entries w' = tbl_entries w)
  /\ (result = None <->
      fault env (if Js.truthy (entry_date data) then tick w else S (tick w)) <> NoFault).
Proof.
  unfold createEntry, nowISO_of.
  destruct (Js.truthy (entry_date data)); unfold entries_insert, remote; cbn [tick bump].
  - destruct (fault env (tick w)); cbn; (split; [reflexivity|]);
      (split; [try discriminate; auto|]); split; congruence.
  - destruct (fault env (S (tick w))); cbn; (split; [reflexivity|]);
      (split; [try discriminate; auto|]); split; congruence.
Qed.

Lemma createEntry_failure_changes_nothing_witness :
  fst (fst (createEntry (Sample.failing_at 0) (Some "u1"%string) Sample.form
              Sample.empty_world Sample.idle_entries)) = None.
Proof.
  pose proof (createEntry_failure_changes_nothing (Sample.failing_at 0) "u1" Sample.form
                Sample.empty_world Sample.idle_entries) as H.
  destruct (createEntry (Sample.failing_at 0) (Some "u1"%string) Sample.form
              Sample.empty_world Sample.idle_entries) as [[result w'] st'].
  destruct H as (_ & _ & H). apply H.
  intros E. vm_compute in E. congruence.
Defined.

Lemma bfilter_all {A} (p : A -> bool) (l : list A) :
  (forall x, x ∈ l -> p x = true) -> List.filter p l = l.
Proof.
  induction l as [|a l IH]; intros H; [reflexivity|]. cbn.
  rewrite (H a ltac:(left)). f_equal. apply IH. intros x Hx. apply H. right. exact Hx.
Qed.

(** X16. Deleting the entry that [createEntry] just returned undoes the
    creation: when the delete call is served and the id the store generated
    was not in use by the user, the entries table and the list in memory are
    what they were before the entry was created. *)
Theorem deleteEntry_undoes_createEntry
    (env : Env) (userId : string) (data : EntryFormData) (w : World) (st : State)
    (e : Entry.t) (w1 : World) (st1 : State) :
  createEntry env (Some userId) data w st = (Some e, w1, st1) ->
  fault env (tick w1) = NoFault ->
  (forall x, x ∈ tbl_entries w -> ~ (Entry.id x = Entry.id e /\ Entry.user_id x = userId)) ->
  (forall x, x ∈ entries st -> Entry.id x <> Entry.id e) ->
  let '(ok, w2, st2) := deleteEntry env (Some userId) (Entry.id e) w1 st1 in
  ok = true /\ tbl_entries w2 = tbl_entries w /\ entries st2 = entries st.
Proof.
  intros Hc Hf Hfresh Hmem.
  destruct (createEntry_inv_some _ _ _ _ _ _ _ _ Hc) as (n & He & Ht & Hs).
  assert (Hu : Entry.user_id e = userId) by (rewrite He; reflexivity).
  unfold deleteEntry, entries_delete. rewrite remote_healthy by exact Hf.
  cbn [tbl_entries received set_entries entries setEntries].
  split; [reflexivity|]. rewrite Ht, Hs. split.
  - rewrite List.filter_app. cbn [List.filter].
    assert (Hm : entry_match (Entry.id e) userId e = true).
    { apply entry_match_spec. auto. }
    rewrite Hm. cbn [negb]. rewrite app_nil_r. apply bfilter_all.
    intros x Hx. apply negb_true_iff, not_true_iff_false. rewrite entry_match_spec. auto.
  - cbn [List.filter]. rewrite String.eqb_refl. cbn [negb]. apply bfilter_all.
    intros x Hx. apply negb_true_iff, String.eqb_neq. auto.
Qed.

Lemma deleteEntry_undoes_createEntry_witness :
  match createEntry Sample.env (Some "u1"%string) Sample.form
          (Sample.world_with [Sample.entry_theirs]) Sample.idle_entries with
  | (Some e, w1, st1) =>
      let '(ok, w2, st2) := deleteEntry Sample.env (Some "u1"%string) (Entry.id e) w1 st1 in
      ok = true /\ tbl_entries w2 = [Sample.entry_theirs] /\ entries st2 = []
  | _ => False
  end.
Proof.
  destruct (createEntry Sample.env (Some "u1"%string) Sample.form
              (Sample.world_with [Sample.entry_theirs]) Sample.idle_entries)
    as [[[e|] w1] st1] eqn:E.
  - apply (deleteEntry_undoes_createEntry Sample.env "u1" Sample.form
             (Sample.world_with [Sample.entry_theirs]) Sample.idle_entries e w1 st1 E).
    + reflexivity.
    + intros x Hx [_ E2]. unfold Sample.world_with in Hx. cbn [tbl_entries] in Hx.
      each_row Hx. vm_compute in E2. congruence.
    + intros x Hx. unfold Sample.idle_entries in Hx. cbn [entries] in Hx.
      apply elem_of_nil in Hx. destruct Hx.
  - apply (f_equal (fun r => fst (fst r))) in E. vm_compute in E. congruence.
Defined.

End create_delete.

Section paths.
Import MediaUpload.

(** X17. Storage paths are scoped by owner: for two different user ids without
    a slash, the paths [generateStoragePath] builds differ, whatever the file
    names, the clock and the random generator. *)
Theorem generateStoragePath_owner_scoped
    (env env' : Env) (fileName fileName' userId userId' : string) (w w' : World) :
  has_char "/" userId = false ->
  has_char "/" userId' = false ->
  userId <> userId' ->
  fst (generateStoragePath env fileName userId w)
  <> fst (generateStoragePath env' fileName' userId' w').
Proof.
  intros H1 H2 Hne E. unfold generateStoragePath in E. cbn [fst] in E.
  change ("/" +:+ ?x)%string with (String "/" x) in E.
  apply split_at_first in E; [|assumption|assumption]. destruct E as [E _]. auto.
Qed.

Lemma generateStoragePath_owner_scoped_witness :
  String.eqb
    (fst (generateStoragePath Sample.env_frozen "a.png" "u1" Sample.empty_world))
    (fst (generateStoragePath Sample.env_frozen "a.png" "u2" Sample.empty_world))
  = false.
Proof.
  apply String.eqb_neq.
  apply (generateStoragePath_owner_scoped Sample.env_frozen Sample.env_frozen
           "a.png" "a.png" "u1" "u2" Sample.empty_world Sample.empty_world).
  - reflexivity.
  - reflexivity.
  - intros E. congruence.
Defined.

End paths.

(** ** Uploads and deletions together *)

Section upload_delete.
Import MediaUpload.

(** X18. Uploading one valid file and then deleting the record returned puts
    the store back: with every call served, the path free and the generated
    id not in use by the user, the upload returns one record, which is in
    the media table, and [deleteMedia] of its id returns [true] and leaves
    the media table and the bucket as they were before the upload. *)
Theorem deleteMedia_undoes_upload
    (env : Env) (userId : string) (entryId : option string) (file : Js.File)
    (w : World) (st : State) :
  isValid (validateFile file) = true ->
  (forall n, fault env n = NoFault) ->
  bucket w !! fst (generateStoragePath env (Js.name file) userId w) = None ->
  (forall x, x ∈ tbl_media w ->
     ~ (Media.id x = gen_id env (insert_tick w) /\ Media.user_id x = userId)) ->
  let '(result, w1, _) := uploadFiles env (Some userId) [file] entryId w st in
  exists r,
    result = [r]
    /\ r ∈ tbl_media w1
    /\ let '(ok, w2) := deleteMedia env (Some userId) (Media.id r) w1 in
       ok = true /\ tbl_media w2 = tbl_media w /\ bucket w2 = bucket w.
Proof.
  intros Hv Hok Hfree Hfresh.
  unfold uploadFiles, uploadLoop. cbn [fold_left].
  destruct (processFile_stored env userId entryId (startLoop w st) file Hv (Hok _) Hfree (Hok _))
    as (Hu & _ & Hm & _ & Hb & _).
  cbn [world startLoop uploadedMedia app] in Hu, Hm, Hb.
  set (s1 := processFile env userId entryId (startLoop w st) file) in *.
  set (path := fst (generateStoragePath env (Js.name file) userId w)) in *.
  set (r := media_row env (insert_tick w) (mediaData userId entryId path file)) in *.
  exists r. split; [exact Hu|].
  split; [rewrite Hm; apply elem_of_app; right; left|].
  assert (Hsel : List.filter (media_match (Media.id r) userId) (tbl_media (world s1)) = [r]).
  { rewrite Hm, List.filter_app. cbn [List.filter].
    assert (E : media_match (Media.id r) userId r = true)
      by (apply media_match_spec; split; reflexivity).
    rewrite E. rewrite (proj2 (bfilter_nil_iff _ _)); [reflexivity|].
    intros x Hx. apply not_true_iff_false. rewrite media_match_spec.
    apply Hfresh. exact Hx. }
  pose proof (deleteMedia_found env userId (Media.id r) (world s1) r (Hok _) Hsel) as H.
  destruct (deleteMedia env (Some userId) (Media.id r) (world s1)) as [ok w2].
  cbv zeta in H. rewrite !Hok in H. destruct H as (_ & _ & Hb2 & -> & Ht2).
  split; [reflexivity|]. split.
  - rewrite Ht2, Hm, List.filter_app. cbn [List.filter].
    assert (E : media_match (Media.id r) userId r = true)
      by (apply media_match_spec; split; reflexivity).
    rewrite E. cbn [negb]. rewrite app_nil_r. apply bfilter_all.
    intros x Hx. apply negb_true_iff, not_true_iff_false. rewrite media_match_spec.
    apply Hfresh. exact Hx.
  - rewrite Hb2, Hb. apply delete_insert_id. exact Hfree.
Qed.

Lemma deleteMedia_undoes_upload_witness :
  let '(result, w1, _) :=
    uploadFiles Sample.env (Some "u1"%string) [Sample.photo] None
      Fixtures.stocked Sample.idle_upload in
  exists r,
    result = [r]
    /\ r ∈ tbl_media w1
    /\ let '(ok, w2) := deleteMedia Sample.env (Some "u1"%string) (Media.id r) w1 in
       ok = true /\ tbl_media w2 = tbl_media Fixtures.stocked
       /\ bucket w2 = bucket Fixtures.stocked.
Proof.
  apply (deleteMedia_undoes_upload Sample.env "u1" None Sample.photo
           Fixtures.stocked Sample.idle_upload).
  - reflexivity.
  - intros n. reflexivity.
  - vm_compute. reflexivity.
  - intros x Hx [E1 _]. unfold Fixtures.stocked in Hx. cbn [tbl_media] in Hx.
    each_row Hx; vm_compute in E1; congruence.
Defined.

(** X19. A valid file whose blob write fails, by an error answer or because
    the path is taken, costs one call and records nothing: the bucket, the
    media table and the list of uploaded records are unchanged, no insert and
    no removal is attempted, the progress entry of its name is complete at 0
    with the error message, and the batch goes on with the files after it. *)
Theorem uploadFiles_failed_upload_records_nothing
    (env : Env) (userId : string) (entryId : option string)
    (w : World) (st : State) (pre post : list Js.File) (file : Js.File) :
  let s := uploadLoop env userId entryId pre (startLoop w st) in
  let path := fst (generateStoragePath env (Js.name file) userId (world s)) in
  isValid (validateFile file) = true ->
  (exists message, fault env (upload_tick (world s)) = FaultError message)
  \/ (fault env (upload_tick (world s)) = NoFault /\ is_Some (bucket (world s) !! path)) ->
  let s' := processFile env userId entryId s file in
  let sf := uploadLoop env userId entryId post s' in
  calls (world s') = calls (world s) ++ [StorageUpload path file]
  /\ bucket (world s') = bucket (world s)
  /\ tbl_media (world s') = tbl_media (world s)
  /\ uploadedMedia s' = uploadedMedia s
  /\ (exists message,
        forall q, q ∈ uploadProgress (hook s') -> fileName q = Js.name file ->
                  progress q = 0 /\ isComplete q = true /\ p_error q = Some message)
  /\ Js.name file ∈ progress_names (hook s')
  /\ uploadFiles env (Some userId) (pre ++ file :: post) entryId w st
     = (uploadedMedia sf, world sf, setUploading false (hook sf)).
Proof.
  intros s path Hv Hfail s' sf.
  assert (Hbatch : uploadFiles env (Some userId) (pre ++ file :: post) entryId w st
                   = (uploadedMedia sf, world sf, setUploading false (hook sf))).
  { unfold uploadFiles. rewrite uploadLoop_app, uploadLoop_cons. reflexivity. }
  assert (Hshape : exists message,
            s' = {| world := received (StorageUpload path file) (bump (bump (world s)));
                    hook := updateProgress (Js.name file) 0 true (Some message)
                              (updateProgress (Js.name file) 50 false None
                                 (updateProgress (Js.name file) 0 false None (hook s)));
                    uploadedMedia := uploadedMedia s |}).
  { unfold s', processFile. rewrite Hv. cbn [negb].
    unfold generateStoragePath. fold path. cbv beta iota zeta.
    change (fst (_, _)) with path.
    unfold storage_upload, remote, upload_tick in *. cbn [tick bump].
    destruct Hfail as [[message Hf]|[Hf [old Hold]]]; rewrite Hf.
    - exists message. reflexivity.
    - cbn [bucket received bump].
      unfold path, generateStoragePath in Hold. cbn [fst] in Hold. rewrite Hold.
      eexists. reflexivity. }
  destruct Hshape as [message Hs'].
  split; [rewrite Hs'; reflexivity|]. split; [rewrite Hs'; reflexivity|].
  split; [rewrite Hs'; reflexivity|]. split; [rewrite Hs'; reflexivity|].
  split; [|split; [|exact Hbatch]].
  - exists message. rewrite Hs'. cbn [hook]. intros q Hq Hn.
    exact (proj1 (proj2 (updateProgress_spec _ _ _ _ _)) q Hq Hn).
  - rewrite Hs'. cbn [hook]. apply updateProgress_names_iff. right. reflexivity.
Qed.

Lemma uploadFiles_failed_upload_records_nothing_witness :
  let s := startLoop Sample.empty_world Sample.idle_upload in
  let s' := processFile Fixtures.env_down "u1" None s Sample.photo in
  bucket (world s') = bucket (world s)
  /\ tbl_media (world s') = tbl_media (world s)
  /\ uploadedMedia s' = uploadedMedia s.
Proof.
  pose proof (uploadFiles_failed_upload_records_nothing Fixtures.env_down "u1" None
                Sample.empty_world Sample.idle_upload [] [Sample.song] Sample.photo
                eq_refl
                (or_introl (ex_intro _ "service unavailable"%string eq_refl))) as H.
  cbv zeta in H. destruct H as (_ & H2 & H3 & H4 & _).
  cbv zeta. split; [exact H2|]. split; [exact H3|exact H4].
Defined.

End upload_delete.

(** ** The feed and the tag field *)

Section feed.
Import Entries.

(** X20. The feed reads back what [createEntry] stored: for the entry returned,
    [getTags] gives the tags of the form, and [getTextContent] gives the
    content of the form when it is truthy and the empty string otherwise; in
    particular a content that is a string comes back as that string. *)
Theorem feed_reads_back_created_entry
    (env : Env) (userId : string) (data : EntryFormData) (w : World) (st : State)
    (e : Entry.t) (w1 : World) (st1 : State) :
  createEntry env (Some userId) data w st = (Some e, w1, st1) ->
  Feed.getTags (Entry.content e) = map Js.JStr (default [] (tags data))
  /\ Feed.getTextContent (Entry.content e)
     = (if JsMore.truthy_value (content data) then content data else Js.JStr "")
  /\ (forall s, content data = Js.JStr s -> Feed.getTextContent (Entry.content e) = Js.JStr s).
Proof.
  intros Hc. destruct (createEntry_inv_some _ _ _ _ _ _ _ _ Hc) as (n & -> & _ & _).
  cbn. split; [reflexivity|]. split; [reflexivity|].
  intros s ->. cbn. destruct s; reflexivity.
Qed.

Lemma feed_reads_back_created_entry_witness :
  match createEntry Sample.env (Some "u1"%string) Sample.form
          Sample.empty_world Sample.idle_entries with
  | (Some e, _, _) =>
      Feed.getTags (Entry.content e) = [Js.JStr "walk"; Js.JStr "morning"]
      /\ Feed.getTextContent (Entry.content e) = Js.JStr "quiet"
  | _ => False
  end.
Proof.
  destruct (createEntry Sample.env (Some "u1"%string) Sample.form
              Sample.empty_world Sample.idle_entries) as [[[e|] w1] st1] eqn:E.
  - destruct (feed_reads_back_created_entry Sample.env "u1" Sample.form
                Sample.empty_world Sample.idle_entries e w1 st1 E) as (H1 & _ & H3).
    split; [exact H1|]. apply H3. reflexivity.
  - apply (f_equal (fun r => fst (fst r))) in E. vm_compute in E. congruence.
Defined.

(** X21. A confirmed [handleDeleteEntry] whose delete and reload are both
    served makes two calls and leaves the feed without the entry: no entry in
    memory has the deleted id, every entry in memory is a row of the user
    that was in the table before, and the table lost exactly the user's rows
    of that id. *)
Theorem handleDeleteEntry_removes_from_feed
    (env : Env) (userId entryId : string) (limit : nat) (searchQuery : option string)
    (w : World) (st : State) :
  fault env (tick w) = NoFault ->
  fault env (S (tick w)) = NoFault ->
  let '(w', st') :=
    Feed.handleDeleteEntry env (Some userId) limit searchQuery true entryId w st in
  (forall e, e ∈ entries st' -> Entry.id e <> entryId)
  /\ (forall e, e ∈ entries st' -> e ∈ tbl_entries w /\ Entry.user_id e = userId)
  /\ (forall e, e ∈ tbl_entries w' <->
        e ∈ tbl_entries w /\ ~ (Entry.id e = entryId /\ Entry.user_id e = userId))
  /\ length (calls w') = S (S (length (calls w))).
Proof.
  intros Hf1 Hf2. unfold Feed.handleDeleteEntry, deleteEntry, entries_delete.
  rewrite remote_healthy by exact Hf1. cbn [fst snd].
  set (w1 := set_entries _ _). set (st1 := setEntries _ st).
  assert (Ht1 : tick w1 = S (tick w)) by reflexivity.
  pose proof (loadEntries_served env userId limit searchQuery w1 st1
                ltac:(rewrite Ht1; exact Hf2)) as Hl.
  assert (Hw : fst (refreshEntries env (Some userId) limit searchQuery w1 st1)
               = received (EntriesSelect
                             {| q_user := userId;
                                q_or := if has_search searchQuery
                                        then search_filter <$> searchQuery else None;
                                q_gte := None; q_lte := None; q_limit := Some limit |}) w1).
  { unfold refreshEntries, loadEntries, entries_select.
    rewrite remote_healthy by (rewrite Ht1; exact Hf2). reflexivity. }
  unfold refreshEntries in *.
  destruct (loadEntries env (Some userId) limit searchQuery w1 st1) as [w' st'].
  cbn [fst snd] in Hl, Hw. subst w' st'.
  cbn [entries setLoading setEntries tbl_entries received calls].
  assert (Hin : forall e, e ∈ take limit
                   (merge_sort (newer_first env)
                      (List.filter (wanted env userId searchQuery) (tbl_entries w1))) ->
                e ∈ tbl_entries w1 /\ Entry.user_id e = userId).
  { intros e He. apply elem_of_take in He. destruct He as (i & He & _).
    apply list_elem_of_lookup_2 in He.
    rewrite (merge_sort_Permutation (newer_first env)) in He.
    apply elem_of_bfilter in He. destruct He as [He Hw'].
    split; [exact He|]. unfold wanted in Hw'. apply andb_true_iff in Hw'.
    apply String.eqb_eq, Hw'. }
  assert (Htbl : forall e, e ∈ tbl_entries w1 <->
                   e ∈ tbl_entries w /\ ~ (Entry.id e = entryId /\ Entry.user_id e = userId)).
  { intros e. unfold w1. cbn [tbl_entries set_entries received].
    rewrite elem_of_bfilter, negb_true_iff, <- not_true_iff_false, entry_match_spec.
    reflexivity. }
  split; [|split; [|split; [exact Htbl|]]].
  - intros e He Hid. destruct (Hin e He) as [Ht Hu]. apply Htbl in Ht. tauto.
  - intros e He. destruct (Hin e He) as [Ht Hu]. apply Htbl in Ht. tauto.
  - unfold w1. cbn [calls set_entries received]. rewrite !length_app. cbn. lia.
Qed.

Lemma handleDeleteEntry_removes_from_feed_witness :
  let '(w', st') :=
    Feed.handleDeleteEntry Sample.env (Some "u1"%string) 20 None true "e1"
      Fixtures.stocked (Sample.loaded [Sample.entry_mine]) in
  (forall e, e ∈ entries st' -> Entry.id e <> "e1"%string)
  /\ (forall e, e ∈ entries st' ->
        e ∈ tbl_entries Fixtures.stocked /\ Entry.user_id e = "u1"%string)
  /\ (forall e, e ∈ tbl_entries w' <->
        e ∈ tbl_entries Fixtures.stocked
        /\ ~ (Entry.id e = "e1"%string /\ Entry.user_id e = "u1"%string))
  /\ length (calls w') = S (S (length (calls Fixtures.stocked))).
Proof.
  exact (handleDeleteEntry_removes_from_feed Sample.env "u1" "e1" 20 None
           Fixtures.stocked (Sample.loaded [Sample.entry_mine]) eq_refl eq_refl).
Defined.

End feed.

Section tags.
Import Editor.

Lemma lower_char_idem (c : ascii) : JsMore.lower_char (JsMore.lower_char c) = JsMore.lower_char c.
Proof. destruct c as [[] [] [] [] [] [] [] []]; reflexivity. Qed.

Lemma ascii_toLowerCase_idem (s : string) :
  JsMore.ascii_toLowerCase (JsMore.ascii_toLowerCase s) = JsMore.ascii_toLowerCase s.
Proof. induction s as [|c s IH]; cbn; [reflexivity|]. now rewrite lower_char_idem, IH. Qed.

(** A no-break space (U+00A0) and an ideographic space (U+3000) are trimmed
    like the space of ASCII. *)
Example trim_beyond_ascii :
  JsMore.trim Fixtures.padded = "Park"%string
  /\ Js.trim_nonempty Fixtures.padded = true
  /\ Js.trim_nonempty Fixtures.nbsp = false.
Proof. repeat split; vm_compute; reflexivity. Qed.

Lemma includes_spec (xs : list string) (x : string) :
  Js.includes xs x = true <-> x ∈ xs.
Proof.
  unfold Js.includes. rewrite existsb_exists. split.
  - intros (y & Hy & E). apply String.eqb_eq in E. subst y. now apply list_elem_of_In.
  - intros H. exists x. split; [now apply list_elem_of_In|apply String.eqb_refl].
Qed.

Lemma tag_step_ok (toLowerCase : string -> string) (st : TagState) (a : TagAction) :
  tags_ok toLowerCase (tags st) -> tags_ok toLowerCase (tags (tag_step toLowerCase st a)).
Proof.
  intros [Hnd Hall]. destruct a as [text| |tag]; cbn.
  - split; assumption.
  - unfold handleAddTag.
    set (t := toLowerCase (JsMore.trim (currentTag st))).
    destruct (Js.truthy (Some t)) eqn:Ht; cbn [andb]; [|split; assumption].
    destruct (Js.includes (tags st) t) eqn:Hi; cbn [negb]; [split; assumption|].
    cbn [tags]. split.
    + apply NoDup_app. split; [exact Hnd|]. split; [|apply NoDup_singleton].
      intros x Hx Hx'. apply list_elem_of_singleton in Hx'. subst x.
      apply includes_spec in Hx. congruence.
    + apply Forall_app. split; [exact Hall|]. constructor; [|constructor].
      split; [intros E; rewrite E in Ht; discriminate|].
      exists (currentTag st). reflexivity.
  - split.
    + clear Hall. induction Hnd as [|x l Hx Hnd IH]; cbn; [constructor|].
      destruct (negb (String.eqb x tag)); [|exact IH].
      constructor; [|exact IH]. intros H. apply elem_of_bfilter in H. tauto.
    + apply Forall_forall. intros x Hx. apply elem_of_bfilter in Hx.
      rewrite Forall_forall in Hall. apply Hall, Hx.
Qed.

(** X22. Whatever the user types, adds and removes in the tag field, starting
    from the empty form, and whatever the case mapping of the engine, the
    tags stay pairwise distinct, and each tag is non-empty and is the
    lowercase form of a trimmed text; so each tag is equal to its own
    lowercase form as soon as lowering twice is lowering once. *)
Theorem tags_stay_distinct_and_lowercase
    (toLowerCase : string -> string) (actions : list TagAction) :
  let st := fold_left (tag_step toLowerCase) actions no_tags in
  NoDup (tags st)
  /\ Forall (fun t => t <> ""%string
                      /\ exists text, t = toLowerCase (JsMore.trim text)) (tags st)
  /\ ((forall s, toLowerCase (toLowerCase s) = toLowerCase s) ->
      Forall (fun t => toLowerCase t = t) (tags st)).
Proof.
  cbv zeta.
  assert (Hok : tags_ok toLowerCase
                  (tags (fold_left (tag_step toLowerCase) actions no_tags))).
  { assert (H : tags_ok toLowerCase (tags no_tags)) by (split; constructor).
    revert H. generalize no_tags.
    induction actions as [|a actions IH]; intros st H; [exact H|].
    cbn. apply IH, tag_step_ok, H. }
  destruct Hok as [Hnd Hall]. split; [exact Hnd|]. split; [exact Hall|].
  intros Hidem. eapply Forall_impl; [exact Hall|].
  intros t (_ & text & ->). apply Hidem.
Qed.

Lemma tags_stay_distinct_and_lowercase_witness :
  let st := fold_left (tag_step JsMore.ascii_toLowerCase)
              [Type_ Fixtures.padded; Add; Type_ "PARK"; Add; Type_ " walk"; Add;
               Remove "park"; Type_ Fixtures.nbsp; Add]%string
              no_tags in
  tags st = ["walk"]%string
  /\ NoDup (tags st)
  /\ Forall (fun t => JsMore.ascii_toLowerCase t = t) (tags st).
Proof.
  cbv zeta.
  destruct (tags_stay_distinct_and_lowercase JsMore.ascii_toLowerCase
              [Type_ Fixtures.padded; Add; Type_ "PARK"; Add; Type_ " walk"; Add;
               Remove "park"; Type_ Fixtures.nbsp; Add]%string)
    as (Hnd & _ & Hlow).
  split; [vm_compute; reflexivity|]. split; [exact Hnd|].
  apply Hlow, ascii_toLowerCase_idem.
Defined.

(** X23. When [handleAddTag] changes the tag list, it appended the trimmed
    text of the field in the lowercase form the engine gives it and emptied
    the field, and [handleRemoveTag] of that tag gives back the list as it
    was. *)
Theorem handleRemoveTag_undoes_handleAddTag
    (toLowerCase : string -> string) (st : TagState) :
  let st1 := handleAddTag toLowerCase st in
  tags st1 <> tags st ->
  exists t, tags st1 = tags st ++ [t] /\ currentTag st1 = ""%string
            /\ t = toLowerCase (JsMore.trim (currentTag st))
            /\ tags (handleRemoveTag t st1) = tags st.
Proof.
  cbv zeta. unfold handleAddTag.
  set (t := toLowerCase (JsMore.trim (currentTag st))).
  destruct (Js.truthy (Some t) && negb (Js.includes (tags st) t)) eqn:E; [|congruence].
  intros _. exists t. cbn. split; [reflexivity|]. split; [reflexivity|].
  split; [reflexivity|].
  apply andb_true_iff in E. destruct E as [_ E]. apply negb_true_iff in E.
  assert (Hnot : t ∉ tags st) by (intros H; apply includes_spec in H; congruence).
  rewrite List.filter_app. cbn. rewrite String.eqb_refl. cbn.
  rewrite app_nil_r. apply bfilter_all. intros x Hx.
  apply negb_true_iff, String.eqb_neq. intros ->. contradiction.
Qed.

Lemma handleRemoveTag_undoes_handleAddTag_witness :
  exists t,
    tags (handleAddTag JsMore.ascii_toLowerCase Fixtures.typing)
    = tags Fixtures.typing ++ [t]
    /\ currentTag (handleAddTag JsMore.ascii_toLowerCase Fixtures.typing) = ""%string
    /\ t = JsMore.ascii_toLowerCase (JsMore.trim (currentTag Fixtures.typing))
    /\ tags (handleRemoveTag t (handleAddTag JsMore.ascii_toLowerCase Fixtures.typing))
       = tags Fixtures.typing.
Proof.
  apply (handleRemoveTag_undoes_handleAddTag JsMore.ascii_toLowerCase Fixtures.typing).
  intros E. vm_compute in E. congruence.
Defined.

End tags.
